(** * api-srs-fastify: row grouping, HTML-entity decoding and route handlers

    A shallow embedding of [src/index.js], the [/api]-prefixed deployment of
    the Selerara dashboard API, and proofs about its row-to-tree grouping,
    its [decodeHtml] helper and the try/catch shape of its route handlers.
    The two other deployments of the repository have the same handlers under
    other paths, with a menu route that returns its rows as they are; the
    pass-through handler below covers them.

    Conventions of the embedding.
    - A JavaScript value delivered by the database driver is a [value]:
      [undefined], [null], a boolean, a number or a string.  Numbers are the
      integers, which is what the driver returns for the INT columns the
      code branches on, and the string of an integer is its decimal numeral;
      fractions are outside the model.  A string is a Rocq [string], one
      character per byte: all patterns the code matches are ASCII, so
      matching on bytes and matching on UTF-16 code units agree.
    - A row is an ordered mapping from column names to values; reading a
      column that is not there gives [undefined], as a property read does.
    - Code that can throw returns a [result]; [let*] threads the first
      exception, as sequential evaluation does.  The messages of TypeErrors
      are those of V8, the engine of Node.js.
    - Handlers are programs over the calls they make on the connection pool;
      [run] executes one against a description of how the pool answers.  A
      response is the status and the payload the handler hands to the
      framework, before the framework serialises it. *)

From Stdlib Require Import ZArith NArith List Bool Lia.
From Stdlib Require Import Strings.String Strings.Ascii.
From Stdlib Require Import Numbers.DecimalString Numbers.DecimalN Numbers.DecimalZ.
From Stdlib Require Import Sorting.Sorted Sorting.Permutation.
Import ListNotations.

Local Open Scope string_scope.
Local Open Scope list_scope.

(** ** JavaScript values *)

Module Js.

Inductive value : Type :=
| VUndefined
| VNull
| VBool (b : bool)
| VNum (z : Z)
| VStr (s : string).

Definition value_eq_dec (a b : value) : {a = b} + {a <> b}.
Proof.
  decide equality.
  - apply Bool.bool_dec.
  - apply Z.eq_dec.
  - apply string_dec.
Defined.

(** [a === b] on the values above (there is no NaN among them). *)
Definition strict_eq (a b : value) : bool :=
  if value_eq_dec a b then true else false.

(** ToBoolean. *)
Definition truthy (v : value) : bool :=
  match v with
  | VUndefined | VNull => false
  | VBool b => b
  | VNum z => negb (Z.eqb z 0)
  | VStr s => negb (String.eqb s "")
  end.

(** [v === null || v === undefined]. *)
Definition nullish (v : value) : bool :=
  match v with
  | VUndefined | VNull => true
  | _ => false
  end.

(** [a || b]. *)
Definition or_else (a b : value) : value :=
  if truthy a then a else b.

(** Number::toString for an integer: its decimal digits, with a leading
    minus sign when negative.  This is what the engine prints for the
    integers a number holds exactly, those below 2^53 in size; above, the
    engine rounds, and no statement below depends on the digits there. *)
Definition string_of_Z (z : Z) : string :=
  NilZero.string_of_int (Z.to_int z).

(** ToString, which is also ToPropertyKey on these values. *)
Definition ToString (v : value) : string :=
  match v with
  | VUndefined => "undefined"
  | VNull => "null"
  | VBool true => "true"
  | VBool false => "false"
  | VNum z => string_of_Z z
  | VStr s => s
  end.

(** Exceptions: the ones the database driver raises and the TypeErrors of
    the language itself.  Both carry a [message]. *)
Inductive error : Type :=
| DbError (msg : string)
| TypeError (msg : string).

Definition message (e : error) : string :=
  match e with
  | DbError m => m
  | TypeError m => m
  end.

Inductive result (A : Type) : Type :=
| Ok (a : A)
| Throw (e : error).
Arguments Ok {A} a.
Arguments Throw {A} e.

Definition bind {A B} (r : result A) (k : A -> result B) : result B :=
  match r with
  | Ok a => k a
  | Throw e => Throw e
  end.

End Js.
Import Js.

Notation "'let*' x ':=' r 'in' k" := (bind r (fun x => k))
  (at level 10, x name, r at level 100, k at level 200).

(** ** String.prototype.replace with a global literal pattern *)

(** [replace_from pat rep skip s] scans [s] from the left.  [skip] counts the
    characters of the current match that are still to be consumed.  At a
    position where [pat] matches, [rep] is emitted and the scan resumes after
    the match; elsewhere the character is copied.  [pat] is a non-empty
    literal, and [rep] holds no [$], so it is inserted as it is. *)
Fixpoint replace_from (pat rep : string) (skip : nat) (s : string) : string :=
  match s with
  | EmptyString => EmptyString
  | String c s' =>
      match skip with
      | S k => replace_from pat rep k s'
      | O =>
          if prefix pat s
          then rep ++ replace_from pat rep (String.length pat - 1) s'
          else String c (replace_from pat rep 0 s')
      end
  end.

(** [s.replace(/pat/g, rep)]. *)
Definition replace_g (pat rep : string) (s : string) : string :=
  replace_from pat rep 0 s.

Definition dquote : string := String "034"%char EmptyString.

(** The six characters backslash, u, 0, 0, 3, C (and E): the text a JSON
    encoder that escapes angle brackets leaves behind.  The pattern of the
    source escapes the backslash, so it matches these characters literally. *)
Definition backslash : ascii := "092"%char.
Definition esc_lt : string := String backslash "u003C".
Definition esc_gt : string := String backslash "u003E".

(** The chain of replacements of [decodeHtml], on a string. *)
Definition decode_chain (s : string) : string :=
  let s := replace_g "&lt;" "<" s in
  let s := replace_g "&gt;" ">" s in
  let s := replace_g "&#039;" "'" s in
  let s := replace_g "&quot;" dquote s in
  let s := replace_g "&amp;" "&" s in
  let s := replace_g esc_lt "<" s in
  replace_g esc_gt ">" s.

(** [decodeHtml]: [str?.replace(...)...] yields [undefined] on [null] and
    [undefined] without calling anything; a number or a boolean has no
    [replace] method, and the call throws. *)
Definition decodeHtml (str : value) : result value :=
  match str with
  | VUndefined | VNull => Ok VUndefined
  | VStr s => Ok (VStr (decode_chain s))
  | VNum _ | VBool _ => Throw (TypeError "str?.replace is not a function")
  end.

(** *** What decoding is compared with *)

(** [pat] occurs somewhere in [s]. *)
Fixpoint occursb (pat s : string) : bool :=
  prefix pat s
  || match s with
     | EmptyString => false
     | String _ s' => occursb pat s'
     end.

Fixpoint mentions (c : ascii) (s : string) : bool :=
  match s with
  | EmptyString => false
  | String d s' => Ascii.eqb c d || mentions c s'
  end.

Definition tail (s : string) : string :=
  match s with
  | EmptyString => EmptyString
  | String _ s' => s'
  end.

(** The escaped sequences [decodeHtml] knows, each with the text it stands
    for. *)
Definition entities : list (string * string) :=
  [ ("&lt;", "<"); ("&gt;", ">"); ("&#039;", "'"); ("&quot;", dquote);
    ("&amp;", "&"); (esc_lt, "<"); (esc_gt, ">") ].

(** ** Rows and plain objects *)

(** A row as the driver delivers it: column names to values, in column
    order. *)
Definition row : Type := list (string * value).

(** [row.k]: the value of column [k], [undefined] when the row has none. *)
Fixpoint get (r : row) (k : string) : value :=
  match r with
  | [] => VUndefined
  | (k', v) :: r' => if String.eqb k' k then v else get r' k
  end.

(** [v.toString()] on a value read from a row: a TypeError on [null] and
    [undefined], the value's string otherwise. *)
Definition toString (v : value) : result string :=
  match v with
  | VUndefined =>
      Throw (TypeError "Cannot read properties of undefined (reading 'toString')")
  | VNull =>
      Throw (TypeError "Cannot read properties of null (reading 'toString')")
  | _ => Ok (ToString v)
  end.

(** The property names every object literal inherits from
    [Object.prototype].  Reading one of them on [{}] gives a function (or,
    for [__proto__], the prototype itself): a truthy value that has no
    [items]. *)
Definition object_prototype_names : list string :=
  [ "constructor"; "hasOwnProperty"; "isPrototypeOf"; "propertyIsEnumerable";
    "toLocaleString"; "toString"; "valueOf"; "__proto__";
    "__defineGetter__"; "__defineSetter__";
    "__lookupGetter__"; "__lookupSetter__" ].

Definition inherited (k : string) : bool :=
  existsb (String.eqb k) object_prototype_names.

(** An array index: the canonical decimal string of an integer between 0 and
    2^32 - 2.  These are the keys an object enumerates first, by value. *)
Definition string_of_N (n : N) : string :=
  NilZero.string_of_uint (N.to_uint n).

Definition array_index (k : string) : option N :=
  match NilZero.uint_of_string k with
  | Some d =>
      let n := N.of_uint d in
      if String.eqb (string_of_N n) k && (n <? 4294967295)%N
      then Some n else None
  | None => None
  end.

Definition is_array_index (k : string) : bool :=
  match array_index k with Some _ => true | None => false end.

Fixpoint insert_asc (n : N) (l : list N) : list N :=
  match l with
  | [] => [n]
  | m :: l' => if (n <=? m)%N then n :: l else m :: insert_asc n l'
  end.

Definition sort_asc (l : list N) : list N := fold_right insert_asc [] l.

Fixpoint indices_of (ks : list string) : list N :=
  match ks with
  | [] => []
  | k :: ks' =>
      match array_index k with
      | Some n => n :: indices_of ks'
      | None => indices_of ks'
      end
  end.

(** OrdinaryOwnPropertyKeys on string keys given in creation order: the
    array indices in ascending numeric order, then the other keys in the
    order they were created. *)
Definition own_property_keys (created : list string) : list string :=
  map string_of_N (sort_asc (indices_of created))
  ++ filter (fun k => negb (is_array_index k)) created.

(** The first occurrence of each element, in order. *)
Fixpoint first_occurrences {A} (eqb : A -> A -> bool) (l : list A) : list A :=
  match l with
  | [] => []
  | a :: l' => a :: filter (fun b => negb (eqb a b)) (first_occurrences eqb l')
  end.

(** [rows.reduce(f, init)] for a callback that can throw. *)
Fixpoint reduce {A} (f : A -> row -> result A) (rows : list row) (acc : A)
  : result A :=
  match rows with
  | [] => Ok acc
  | r :: rest => let* acc' := f acc r in reduce f rest acc'
  end.

(** ** The /api/menu grouping *)

Module Menu.

Record item : Type := mkItem {
  image : value;
  title : value;
  price : string;
  currency : value;
  rating : value;
  text : value;
  badge : option value   (* [None]: the object has no [badge] key *)
}.

Record category : Type := mkCategory {
  name : value;
  slug : value;
  description : value;
  items : list item
}.

(** The accumulator [acc]: the own properties of a plain object, in creation
    order.  Keys are property keys, that is strings. *)
Definition object : Type := list (string * category).

Fixpoint get_own (o : object) (k : string) : option category :=
  match o with
  | [] => None
  | (k', c) :: o' => if String.eqb k' k then Some c else get_own o' k
  end.

(** Writes the value of the own property [k], which exists. *)
Fixpoint set_own (o : object) (k : string) (c : category) : object :=
  match o with
  | [] => []
  | (k', c') :: o' =>
      if String.eqb k' k then (k', c) :: o' else (k', c') :: set_own o' k c
  end.

(** ToBoolean of [acc[k]]: own values are objects, inherited ones are
    functions or the prototype, anything else reads as [undefined]. *)
Definition has_truthy (o : object) (k : string) : bool :=
  match get_own o k with
  | Some _ => true
  | None => inherited k
  end.

(** The object literal pushed for a row, fields evaluated in source order. *)
Definition make_item (row : row) : result item :=
  let image := or_else (get row "image") (VStr "/img/menu/default.jpg") in
  let title := get row "title" in
  let* price := toString (get row "price") in
  let currency := or_else (get row "currency") (VStr "$") in
  let rating := or_else (get row "rating") (VNum 5) in
  let text := get row "item_description" in
  let* badge :=
    (if truthy (get row "badge")
     then let* b := decodeHtml (get row "badge") in Ok (Some b)
     else Ok None) in
  Ok (mkItem image title price currency rating text badge).

Definition push (c : category) (i : item) : category :=
  mkCategory (name c) (slug c) (description c) (items c ++ [i]).

(** The callback of [rows.reduce].  [acc[categoryId].items.push] is resolved
    before the argument is built, so on an inherited key the TypeError of
    reading [push] on [undefined] comes first. *)
Definition step (acc : object) (row : row) : result object :=
  let categoryId := ToString (get row "category_id") in
  let acc :=
    if negb (has_truthy acc categoryId)
    then acc ++ [(categoryId,
                  mkCategory (get row "category_name") (get row "category_slug")
                             (get row "category_description") [])]
    else acc in
  if truthy (get row "id") then
    match get_own acc categoryId with
    | Some c =>
        let* i := make_item row in
        Ok (set_own acc categoryId (push c i))
    | None =>
        Throw (TypeError "Cannot read properties of undefined (reading 'push')")
    end
  else Ok acc.

(** [Object.values(acc)]. *)
Fixpoint values_at (o : object) (ks : list string) : list category :=
  match ks with
  | [] => []
  | k :: ks' =>
      match get_own o k with
      | Some c => c :: values_at o ks'
      | None => values_at o ks'
      end
  end.

Definition Object_values (o : object) : list category :=
  values_at o (own_property_keys (map fst o)).

(** [Object.values(rows.reduce(..., {}))]: the [categories] array of the
    response. *)
Definition categories (rows : list row) : result (list category) :=
  let* acc := reduce step rows [] in
  Ok (Object_values acc).

(** *** What the grouping is compared with *)

Definition key_of (r : row) : string := ToString (get r "category_id").

(** The keys that get a category: those that do not read as an inherited
    property, by first occurrence. *)
Definition category_keys (rows : list row) : list string :=
  first_occurrences String.eqb
    (filter (fun k => negb (inherited k)) (map key_of rows)).

Definition rows_of (k : string) (rows : list row) : list row :=
  filter (fun r => String.eqb (key_of r) k) rows.

Fixpoint items_of (rows : list row) : list item :=
  match rows with
  | [] => []
  | r :: rest =>
      if truthy (get r "id") then
        match make_item r with
        | Ok i => i :: items_of rest
        | Throw _ => items_of rest
        end
      else items_of rest
  end.

(** The category of key [k]: header fields from the first row of the key,
    one item for each of its rows with a truthy [id], in row order. *)
Definition category_of (rows : list row) (k : string) : category :=
  let mine := rows_of k rows in
  let first := hd [] mine in
  mkCategory (get first "category_name") (get first "category_slug")
             (get first "category_description") (items_of mine).

(** The object whose own keys are [ks], created in this order, with [f k]
    at [k]; and the object the rows are expected to leave in [acc]. *)
Definition object_of (f : string -> category) (ks : list string) : object :=
  map (fun k => (k, f k)) ks.

Definition grouped (rows : list row) : object :=
  object_of (category_of rows) (category_keys rows).

(** Rows as [ORDER BY c.id] delivers them when the ids are array indices:
    every [category_id] is an integer between [lo] and 2^32 - 2, and the ids
    never decrease along the rows. *)
Fixpoint ascending_ids (lo : Z) (rows : list row) : bool :=
  match rows with
  | [] => true
  | r :: rest =>
      match get r "category_id" with
      | VNum z =>
          (lo <=? z)%Z && (z <? 4294967295)%Z && ascending_ids z rest
      | _ => false
      end
  end.

Definition ordered_by_category_id (rows : list row) : bool :=
  ascending_ids 0 rows.

(** A row the callback processes without throwing. *)
Definition shapeable (r : row) : bool :=
  if truthy (get r "id") then
    negb (inherited (key_of r))
    && negb (nullish (get r "price"))
    && (negb (truthy (get r "badge"))
        || match get r "badge" with VStr _ => true | _ => false end)
  else true.

End Menu.

(** ** The /api/faqs grouping *)

Module Faq.

Record item : Type := mkItem {
  title : value;
  text : value
}.

Record category : Type := mkCategory {
  name : value;
  items : list item
}.

Definition push (c : category) (i : item) : category :=
  mkCategory (name c) (items c ++ [i]).

(** [category.items.push(item)] on the object [acc.find] returned: the first
    element of [acc] with that name, changed in place. *)
Fixpoint push_to_first (n : value) (i : item) (acc : list category)
  : list category :=
  match acc with
  | [] => []
  | cat :: rest =>
      if strict_eq (name cat) n then push cat i :: rest
      else cat :: push_to_first n i rest
  end.

(** The callback of [faqs.reduce]; it cannot throw. *)
Definition step (acc : list category) (faq : row) : list category :=
  let category :=
    find (fun cat => strict_eq (name cat) (get faq "category_name")) acc in
  let item := mkItem (get faq "title") (get faq "text") in
  match category with
  | Some _ => push_to_first (get faq "category_name") item acc
  | None => acc ++ [mkCategory (get faq "category_name") [item]]
  end.

Definition categories (faqs : list row) : list category :=
  fold_left step faqs [].

(** *** What the grouping is compared with *)

Definition name_of (r : row) : value := get r "category_name".

Definition item_of (r : row) : item := mkItem (get r "title") (get r "text").

Definition rows_of (n : value) (rows : list row) : list row :=
  filter (fun r => strict_eq (name_of r) n) rows.

Definition category_of (rows : list row) (n : value) : category :=
  mkCategory n (map item_of (rows_of n rows)).

Definition category_names (rows : list row) : list value :=
  first_occurrences strict_eq (map name_of rows).

End Faq.

(** ** Route handlers *)

Module Routes.

(** What a handler asks of the connection pool. *)
Inductive call : Type :=
| CQuery (sql : string)
| CGetConnection
| CPing
| CRelease.

(** How the pool answers: each awaited call either yields or throws.
    [release] is synchronous and always succeeds. *)
Record pool : Type := mkPool {
  query : string -> result (list row);
  getConnection : result unit;
  ping : result unit
}.

(** The body of an [async] handler, as far as the pool can observe it. *)
Inductive prog (A : Type) : Type :=
| Return (a : A)
| Raise (e : error)
| PoolQuery (sql : string) (k : list row -> prog A)
| PoolGetConnection (k : prog A)
| ConnectionPing (k : prog A)
| ConnectionRelease (k : prog A).
Arguments Return {A} a.
Arguments Raise {A} e.
Arguments PoolQuery {A} sql k.
Arguments PoolGetConnection {A} k.
Arguments ConnectionPing {A} k.
Arguments ConnectionRelease {A} k.

Definition of_result {A} (r : result A) : prog A :=
  match r with
  | Ok a => Return a
  | Throw e => Raise e
  end.

(** Runs a body against a pool: the calls made, in order, and the outcome.
    A call that throws ends the body there. *)
Fixpoint run {A} (p : prog A) (db : pool) : list call * result A :=
  match p with
  | Return a => ([], Ok a)
  | Raise e => ([], Throw e)
  | PoolQuery sql k =>
      match query db sql with
      | Ok rows => let (t, r) := run (k rows) db in (CQuery sql :: t, r)
      | Throw e => ([CQuery sql], Throw e)
      end
  | PoolGetConnection k =>
      match getConnection db with
      | Ok _ => let (t, r) := run k db in (CGetConnection :: t, r)
      | Throw e => ([CGetConnection], Throw e)
      end
  | ConnectionPing k =>
      match ping db with
      | Ok _ => let (t, r) := run k db in (CPing :: t, r)
      | Throw e => ([CPing], Throw e)
      end
  | ConnectionRelease k =>
      let (t, r) := run k db in (CRelease :: t, r)
  end.

(** Response payloads. *)
Inductive body : Type :=
| Status (status : string)                      (* { status } *)
| StatusMessage (status message : string)       (* { status, message } *)
| ErrorMessage (error : string)                 (* { error } *)
| Rows (rows : list row)                        (* the rows, as delivered *)
| FaqCategories (categories : list Faq.category)
| MenuCategories (categories : list Menu.category).

Record response : Type := mkResponse {
  code : Z;
  payload : body
}.

(** [try { body } catch (error) { reply.code(500).send(on_error(error)) }]:
    a returned value is sent with the default status 200. *)
Definition try_catch (p : prog body) (on_error : error -> body) (db : pool)
  : list call * response :=
  let (t, r) := run p db in
  match r with
  | Ok b => (t, mkResponse 200 b)
  | Throw e => (t, mkResponse 500 (on_error e))
  end.

Definition send_error (e : error) : body := ErrorMessage (message e).

(** The query texts, with runs of white space written as one space. *)
Definition users_sql : string := "SELECT id, email, username FROM user".
Definition images_sql : string := "SELECT * FROM image".
Definition reviews_sql : string := "SELECT * FROM review".
Definition menu_categories_sql : string := "SELECT * FROM menu_category".
Definition faqs_sql : string :=
  "SELECT f.id, f.title, f.text, f.category_id, c.name as category_name FROM faq f JOIN category_faq c ON f.category_id = c.id".
Definition menu_sql : string :=
  "SELECT c.id as category_id, c.name as category_name, c.slug as category_slug, c.description as category_description, m.id, m.title, m.image_url as image, m.price, m.text as item_description, m.badge, m.rating, m.currency FROM menu_category c LEFT JOIN menu_item m ON c.id = m.category_id ORDER BY c.id, m.id".

(** [/api/health]: no try block, no pool. *)
Definition health (db : pool) : list call * response :=
  ([], mkResponse 200 (Status "OK")).

(** [/api/db-health]. *)
Definition db_health : pool -> list call * response :=
  try_catch
    (PoolGetConnection
       (ConnectionPing
          (ConnectionRelease
             (Return (StatusMessage "OK" "Database connection is successful")))))
    (fun error => StatusMessage "ERROR" (message error)).

(** The routes that return the rows of one query as they are. *)
Definition pass_through (sql : string) : pool -> list call * response :=
  try_catch (PoolQuery sql (fun rows => Return (Rows rows))) send_error.

(** [/api/faqs] (its two [console.log] calls write to the log only). *)
Definition faqs : pool -> list call * response :=
  try_catch
    (PoolQuery faqs_sql
       (fun faqs => Return (FaqCategories (Faq.categories faqs))))
    send_error.

(** [/api/menu]: the grouping runs inside the try block. *)
Definition menu : pool -> list call * response :=
  try_catch
    (PoolQuery menu_sql
       (fun rows =>
          of_result
            (let* categories := Menu.categories rows in
             Ok (MenuCategories categories))))
    send_error.

Inductive route : Type :=
| ApiHealth
| ApiDbHealth
| ApiUsers
| ApiImages
| ApiFaqs
| ApiMenu
| ApiReviews
| ApiMenuCategories.

Definition handler (r : route) : pool -> list call * response :=
  match r with
  | ApiHealth => health
  | ApiDbHealth => db_health
  | ApiUsers => pass_through users_sql
  | ApiImages => pass_through images_sql
  | ApiFaqs => faqs
  | ApiMenu => menu
  | ApiReviews => pass_through reviews_sql
  | ApiMenuCategories => pass_through menu_categories_sql
  end.

(** The routes that query data, and the text each one sends. *)
Definition sql_of (r : route) : option string :=
  match r with
  | ApiHealth | ApiDbHealth => None
  | ApiUsers => Some users_sql
  | ApiImages => Some images_sql
  | ApiFaqs => Some faqs_sql
  | ApiMenu => Some menu_sql
  | ApiReviews => Some reviews_sql
  | ApiMenuCategories => Some menu_categories_sql
  end.

End Routes.

(** ** Sample rows and pools *)

Module Samples.

(** A row of the menu query, its twelve columns in the order of the SELECT
    list. *)
Definition menu_row (category_id : Z) (category_name category_slug : string)
  (id title image price badge rating currency : value) : row :=
  [ ("category_id", VNum category_id); ("category_name", VStr category_name);
    ("category_slug", VStr category_slug); ("category_description", VNull);
    ("id", id); ("title", title); ("image", image); ("price", price);
    ("item_description", VNull); ("badge", badge); ("rating", rating);
    ("currency", currency) ].

Definition soup : row :=
  menu_row 1 "Starters" "starters" (VNum 11) (VStr "Soup")
    (VStr "/img/menu/soup.jpg") (VStr "4.50") (VStr "Chef&#039;s pick")
    (VNum 4) (VStr "Rp").

Definition fish : row :=
  menu_row 2 "Mains" "mains" (VNum 12) (VStr "Fish and chips")
    VNull (VStr "12.00") (VStr "Fish &amp; Chips") VNull VNull.

(** An item with a rating of 0, an empty image, badge and currency. *)
Definition unrated : row :=
  menu_row 2 "Mains" "mains" (VNum 13) (VStr "Stew")
    (VStr "") (VNum 9) (VStr "") (VNum 0) (VStr "").

(** The row the LEFT JOIN gives a category without items. *)
Definition empty_category : row :=
  menu_row 3 "Desserts" "desserts" VNull VNull VNull VNull VNull VNull VNull.

(** An item whose id is 0. *)
Definition first_item : row :=
  menu_row 1 "Starters" "starters" (VNum 0) (VStr "Bread")
    VNull (VStr "2.00") VNull (VNum 5) VNull.

(** An item without a price. *)
Definition unpriced : row :=
  menu_row 1 "Starters" "starters" (VNum 14) (VStr "Market fish")
    VNull VNull VNull (VNum 5) VNull.

Definition faq_row (category_name title text : string) : row :=
  [ ("id", VNum 1); ("title", VStr title); ("text", VStr text);
    ("category_id", VNum 1); ("category_name", VStr category_name) ].

(** A pool whose queries all deliver [rows] and whose connections work. *)
Definition pool_with (rows : list row) : Routes.pool :=
  Routes.mkPool (fun _ => Ok rows) (Ok tt) (Ok tt).

(** A pool that is down: every call throws [e]. *)
Definition pool_down (e : error) : Routes.pool :=
  Routes.mkPool (fun _ => Throw e) (Throw e) (Throw e).

End Samples.

(** ** The earlier deployments *)

(** The two other deployments serve rows without grouping them: the
    unprefixed one its FAQs, the first [/api] one its menu items. *)
Module Variants.

Definition faqs_flat_sql : string :=
  "SELECT f.*, c.name as category_name FROM faq f JOIN category_faq c ON f.category_id = c.id".

Definition menu_items_sql : string :=
  "SELECT m.*, c.name as category_name FROM menu_item m JOIN menu_category c ON m.category_id = c.id".

(** [/faqs] of the unprefixed deployment. *)
Definition faqs_flat : Routes.pool -> list Routes.call * Routes.response :=
  Routes.pass_through faqs_flat_sql.

(** [/api/menu-items] of the first prefixed deployment. *)
Definition menu_items : Routes.pool -> list Routes.call * Routes.response :=
  Routes.pass_through menu_items_sql.

End Variants.

(** ** Further notions the code is compared with *)

(** A character none of the escaped sequences mentions: no match can start
    on it, end on it or run over it. *)
Definition inert (c : ascii) : bool :=
  forallb (fun e => negb (mentions c (fst e))) entities.

(** The three columns the FAQ grouping reads. *)
Definition faq_view (r : row) : value * value * value :=
  (get r "category_name", get r "title", get r "text").

(** Every row's [category_id] is an array index. *)
Definition all_indexed (rows : list row) : bool :=
  forallb (fun r => is_array_index (Menu.key_of r)) rows.

(** Whether something is thrown inside the try block of a route: by the
    pool, or by the grouping of [/api/menu] on a row it cannot shape. *)
Definition is_throw {A} (r : result A) : bool :=
  match r with
  | Ok _ => false
  | Throw _ => true
  end.

Definition throws (r : Routes.route) (db : Routes.pool) : bool :=
  match r with
  | Routes.ApiHealth => false
  | Routes.ApiDbHealth =>
      is_throw (Routes.getConnection db) || is_throw (Routes.ping db)
  | Routes.ApiMenu =>
      match Routes.query db Routes.menu_sql with
      | Ok rows => negb (forallb Menu.shapeable rows)
      | Throw _ => true
      end
  | _ =>
      match Routes.sql_of r with
      | Some sql => is_throw (Routes.query db sql)
      | None => false
      end
  end.

Definition is_release (c : Routes.call) : bool :=
  match c with
  | Routes.CRelease => true
  | _ => false
  end.

(** * Properties *)

(** ** Strings *)

Local Open Scope string_scope.

Lemma append_assoc (a b c : string) : (a ++ b) ++ c = a ++ (b ++ c).
Proof. induction a as [|x a IH]; simpl; [reflexivity | now rewrite IH]. Qed.

Lemma append_empty_r (a : string) : a ++ "" = a.
Proof. induction a as [|x a IH]; simpl; [reflexivity | now rewrite IH]. Qed.

Lemma prefix_append (p b : string) : prefix p (p ++ b) = true.
Proof.
  induction p as [|x p IH]; simpl.
  - now destruct b.
  - destruct (ascii_dec x x); [exact IH | congruence].
Qed.

Lemma prefix_split (p s : string) :
  prefix p s = true -> exists b, s = p ++ b.
Proof.
  revert s; induction p as [|x p IH]; intros s H.
  - now exists s.
  - destruct s as [|y s]; simpl in H; [discriminate|].
    destruct (ascii_dec x y) as [->|]; [|discriminate].
    destruct (IH _ H) as [b ->]. now exists b.
Qed.

Lemma prefix_length (p s : string) :
  prefix p s = true -> String.length p <= String.length s.
Proof.
  intros H. destruct (prefix_split _ _ H) as [b ->].
  clear H. induction p; simpl; lia.
Qed.

(** A character that [p] does not mention ends every attempt to match [p]
    across it. *)
Lemma prefix_blocked (c : ascii) (t p a : string) :
  mentions c p = false ->
  prefix p (a ++ String c t) = prefix p a.
Proof.
  revert a; induction p as [|q p IH]; intros a H.
  - simpl. now destruct a.
  - simpl in H. apply orb_false_iff in H as [Hq Hp].
    destruct a as [|x a]; simpl.
    + destruct (ascii_dec q c) as [->|]; [|reflexivity].
      now rewrite Ascii.eqb_refl in Hq.
    + destruct (ascii_dec q x); [now apply IH | reflexivity].
Qed.

Lemma occursb_spec (pat s : string) :
  occursb pat s = true <-> exists a b, s = a ++ pat ++ b.
Proof.
  split.
  - induction s as [|x s IH]; cbn [occursb]; intros H.
    + rewrite orb_false_r in H. destruct (prefix_split _ _ H) as [b E].
      now exists "", b.
    + apply orb_true_iff in H as [H|H].
      * destruct (prefix_split _ _ H) as [b ->]. now exists "", b.
      * destruct (IH H) as (a & b & ->). now exists (String x a), b.
  - intros (a & b & ->). induction a as [|x a IH].
    + change ("" ++ pat ++ b) with (pat ++ b).
      pose proof (prefix_append pat b) as P.
      destruct (pat ++ b); cbn [occursb]; now rewrite P.
    + change (String x a ++ pat ++ b) with (String x (a ++ pat ++ b)).
      cbn [occursb]. rewrite IH. apply orb_true_r.
Qed.

Section Replace.

Variables pat rep : string.

(** Text without the pattern is copied as it is. *)
Lemma replace_g_absent (s : string) :
  occursb pat s = false -> replace_g pat rep s = s.
Proof.
  unfold replace_g. induction s as [|x s IH]; intros H; [reflexivity|].
  cbn [occursb] in H. apply orb_false_iff in H as [Hp Hs].
  cbn [replace_from]. rewrite Hp. now rewrite IH.
Qed.

(** Scanning [a ++ c :: t] is scanning [a], then [c :: t], when no match
    that starts in [a] can run over [c]. *)
Lemma replace_from_blocked (c : ascii) (t a : string) (k : nat) :
  mentions c (tail pat) = false ->
  k <= String.length a ->
  replace_from pat rep k (a ++ String c t)
  = replace_from pat rep k a ++ replace_from pat rep 0 (String c t).
Proof.
  intros Hc. revert k.
  induction a as [|x a IH]; intros k Hk.
  - simpl in Hk. now replace k with 0 by lia.
  - destruct k as [|k].
    + change (String x a ++ String c t) with (String x (a ++ String c t)).
      cbn [replace_from].
      assert (E : prefix pat (String x (a ++ String c t))
                  = prefix pat (String x a)).
      { destruct pat as [|q p]; [reflexivity|]. simpl in Hc |- *.
        destruct (ascii_dec q x); [|reflexivity].
        now apply prefix_blocked. }
      rewrite E. destruct (prefix pat (String x a)) eqn:P.
      * apply prefix_length in P. simpl in P.
        rewrite IH by lia. now rewrite append_assoc.
      * rewrite IH by lia. reflexivity.
    + simpl in Hk. simpl. apply IH. lia.
Qed.

(** The same around a separator [c :: sep] that the scan turns into [sep']
    whatever follows. *)
Lemma replace_g_around (c : ascii) (sep sep' : string) :
  mentions c (tail pat) = false ->
  (forall b, replace_g pat rep (String c sep ++ b) = sep' ++ replace_g pat rep b) ->
  forall a b,
    replace_g pat rep (a ++ String c sep ++ b)
    = replace_g pat rep a ++ sep' ++ replace_g pat rep b.
Proof.
  intros Hc Hsep a b. unfold replace_g in *.
  change (String c sep ++ b) with (String c (sep ++ b)).
  rewrite replace_from_blocked by (auto; lia).
  f_equal. apply (Hsep b).
Qed.

End Replace.

(** ** decodeHtml *)

Ltac around c sep sep' :=
  rewrite (replace_g_around _ _ c sep sep')
    by first [reflexivity | intros [|? ?]; reflexivity].

(** Decoding goes through an escaped sequence: what is before it and what is
    after it are decoded on their own, and its text stands between them. *)
Lemma decode_chain_around (e lit pre post : string) :
  In (e, lit) entities ->
  decode_chain (pre ++ e ++ post)
  = decode_chain pre ++ lit ++ decode_chain post.
Proof.
  intros H.
  repeat (destruct H as [H|H]; [injection H as <- <-|]); [ .. | destruct H];
    cbv beta zeta delta [decode_chain esc_lt esc_gt dquote backslash].
  - around "&"%char "lt;" "<". do 6 around "<"%char "" "<". reflexivity.
  - around "&"%char "gt;" "&gt;". around "&"%char "gt;" ">".
    do 5 around ">"%char "" ">". reflexivity.
  - do 2 around "&"%char "#039;" "&#039;". around "&"%char "#039;" "'".
    do 4 around "'"%char "" "'". reflexivity.
  - do 3 around "&"%char "quot;" "&quot;".
    around "&"%char "quot;" (String "034"%char "").
    do 3 around "034"%char "" (String "034"%char ""). reflexivity.
  - do 4 around "&"%char "amp;" "&amp;". around "&"%char "amp;" "&".
    do 2 around "&"%char "" "&". reflexivity.
  - do 5 around "092"%char "u003C" (String "092"%char "u003C").
    around "092"%char "u003C" "<". around "<"%char "" "<". reflexivity.
  - do 6 around "092"%char "u003E" (String "092"%char "u003E").
    around "092"%char "u003E" ">". reflexivity.
Qed.

Lemma decode_chain_absent (s : string) :
  forallb (fun e => negb (occursb (fst e) s)) entities = true ->
  decode_chain s = s.
Proof.
  intros H. cbn [forallb entities fst] in H.
  repeat (apply andb_true_iff in H as [?H H]).
  repeat match goal with
         | X : negb _ = true |- _ => apply negb_true_iff in X
         end.
  cbv beta zeta delta [decode_chain].
  now repeat (rewrite (replace_g_absent _ _ s) by assumption).
Qed.

Lemma append_nonempty (a b : string) : b <> "" -> a ++ b <> "".
Proof. destruct a; simpl; [auto | discriminate]. Qed.

(** ** The item built for a menu row *)

Lemma make_item_ok (r : row) (i : Menu.item) :
  Menu.make_item r = Ok i ->
  Menu.image i = or_else (get r "image") (VStr "/img/menu/default.jpg")
  /\ Menu.title i = get r "title"
  /\ toString (get r "price") = Ok (Menu.price i)
  /\ Menu.currency i = or_else (get r "currency") (VStr "$")
  /\ Menu.rating i = or_else (get r "rating") (VNum 5)
  /\ Menu.text i = get r "item_description"
  /\ (if truthy (get r "badge")
      then exists s, get r "badge" = VStr s
                     /\ Menu.badge i = Some (VStr (decode_chain s))
      else Menu.badge i = None).
Proof.
  unfold Menu.make_item. intros H.
  destruct (toString (get r "price")) as [p|e] eqn:P; [|discriminate].
  cbn [bind] in H.
  destruct (truthy (get r "badge")) eqn:B.
  - destruct (get r "badge") as [| |b|z|s] eqn:G; try discriminate.
    cbn in H. injection H as <-. cbn. repeat split. now exists s.
  - cbn in H. injection H as <-. cbn. repeat split.
Qed.

Lemma or_else_truthy (v d : value) : truthy v = true -> or_else v d = v.
Proof. unfold or_else. now intros ->. Qed.

Lemma or_else_falsy (v d : value) : truthy v = false -> or_else v d = d.
Proof. unfold or_else. now intros ->. Qed.

Lemma or_else_nullish (v d : value) : nullish v = true -> or_else v d = d.
Proof. now destruct v. Qed.

Lemma or_else_not_nullish (v d : value) :
  nullish d = false -> nullish (or_else v d) = false.
Proof.
  unfold or_else. destruct (truthy v) eqn:T; [|auto].
  now destruct v.
Qed.

Example decodeHtml_mixed :
  decodeHtml (VStr ("Chef&#039;s &lt;b&gt; pick &amp;amp; more "
                    ++ esc_lt ++ "ok" ++ esc_gt))
  = Ok (VStr "Chef's <b> pick &amp; more <ok>").
Proof. reflexivity. Qed.

(** C7.  [decodeHtml] turns each of the escaped sequences [&lt;] [&gt;]
    [&#039;] [&quot;] [&amp;] and the backslash-u forms of the two angle
    brackets into the character it stands for, alone and inside any text;
    it returns a string that holds none of them as it is; and on
    [undefined] (and [null]) it returns [undefined] without throwing. *)
Theorem decodeHtml_entities :
  (forall e lit, In (e, lit) entities -> decodeHtml (VStr e) = Ok (VStr lit))
  /\ (forall e lit pre post, In (e, lit) entities ->
        decodeHtml (VStr (pre ++ e ++ post))
        = Ok (VStr (decode_chain pre ++ lit ++ decode_chain post)))
  /\ (forall s, forallb (fun e => negb (occursb (fst e) s)) entities = true ->
        decodeHtml (VStr s) = Ok (VStr s))
  /\ decodeHtml VUndefined = Ok VUndefined
  /\ decodeHtml VNull = Ok VUndefined.
Proof.
  split; [|split; [|split; [|split]]]; try reflexivity.
  - intros e lit H.
    repeat (destruct H as [H|H]; [injection H as <- <-; reflexivity|]).
    destruct H.
  - intros e lit pre post H. cbn [decodeHtml].
    now rewrite (decode_chain_around e lit) by assumption.
  - intros s H. cbn [decodeHtml]. now rewrite decode_chain_absent.
Qed.

Lemma decodeHtml_entities_witness :
  decodeHtml (VStr "&quot;") = Ok (VStr dquote)
  /\ decodeHtml (VStr "Fish &amp; Chips") = Ok (VStr "Fish & Chips")
  /\ decodeHtml (VStr "Soup of the day") = Ok (VStr "Soup of the day").
Proof.
  destruct decodeHtml_entities as (A & B & C & _).
  split; [|split].
  - apply (A "&quot;" dquote). simpl. tauto.
  - apply (B "&amp;" "&" "Fish " " Chips"). simpl. tauto.
  - apply (C "Soup of the day"). reflexivity.
Defined.

(** C6.  For the item built from a menu row: when the row's badge is [null]
    or [undefined] the item has no [badge] key, and when the badge is a
    string in which [&amp;] occurs, the item's badge has the character [&]
    at that place, between the decoded text before and after it. *)
Theorem menu_badge_decoded (r : row) (i : Menu.item) :
  Menu.make_item r = Ok i ->
  (nullish (get r "badge") = true -> Menu.badge i = None)
  /\ (forall pre post,
        get r "badge" = VStr (pre ++ "&amp;" ++ post) ->
        Menu.badge i
        = Some (VStr (decode_chain pre ++ "&" ++ decode_chain post))).
Proof.
  intros H. apply make_item_ok in H.
  destruct H as (_ & _ & _ & _ & _ & _ & B). split.
  - intros N. destruct (get r "badge"); try discriminate; exact B.
  - intros pre post G. rewrite G in B. cbn [truthy] in B.
    assert (E : String.eqb (pre ++ "&amp;" ++ post) "" = false).
    { apply String.eqb_neq, append_nonempty. discriminate. }
    rewrite E in B. cbn [negb] in B. destruct B as (s & Hs & ->).
    injection Hs as Hs. subst s. do 2 f_equal.
    apply (decode_chain_around "&amp;" "&" pre post). simpl. tauto.
Qed.

Lemma menu_badge_decoded_witness :
  exists i, Menu.make_item Samples.fish = Ok i
            /\ Menu.badge i = Some (VStr "Fish & Chips").
Proof.
  eexists. split; [reflexivity|].
  exact (proj2 (menu_badge_decoded Samples.fish _ eq_refl)
           "Fish " " Chips" eq_refl).
Defined.

(** C9.  Whether the item built from a menu row has a [badge] key is decided
    by the truthiness of the row's badge: a falsy badge, the empty string
    included, gives no key; a truthy one is a string and gives its decoded
    text. *)
Theorem menu_badge_truthiness (r : row) (i : Menu.item) :
  Menu.make_item r = Ok i ->
  (truthy (get r "badge") = false -> Menu.badge i = None)
  /\ (get r "badge" = VStr "" -> Menu.badge i = None)
  /\ (truthy (get r "badge") = true ->
      exists s, get r "badge" = VStr s
                /\ Menu.badge i = Some (VStr (decode_chain s))).
Proof.
  intros H. apply make_item_ok in H.
  destruct H as (_ & _ & _ & _ & _ & _ & B).
  split; [|split].
  - intros T. now rewrite T in B.
  - intros G. now rewrite G in B.
  - intros T. now rewrite T in B.
Qed.

Lemma menu_badge_truthiness_witness :
  truthy (get Samples.unrated "id") = true
  /\ exists i, Menu.make_item Samples.unrated = Ok i /\ Menu.badge i = None.
Proof.
  split; [reflexivity|].
  eexists. split; [reflexivity|].
  exact (proj1 (proj2 (menu_badge_truthiness Samples.unrated _ eq_refl))
           eq_refl).
Defined.

(** C3, as stated, fails: a rating of 0 is not [null], yet the item gets the
    default 5. *)
Lemma menu_defaults_counterexample :
  nullish (get Samples.unrated "rating") = false
  /\ truthy (get Samples.unrated "id") = true
  /\ exists i, Menu.make_item Samples.unrated = Ok i
               /\ Menu.rating i = VNum 5
               /\ Menu.rating i <> get Samples.unrated "rating".
Proof.
  split; [reflexivity|]. split; [reflexivity|].
  eexists. split; [reflexivity|]. split; [reflexivity|]. discriminate.
Qed.

(** C3, amended.  In the item built from a menu row, each of [image],
    [currency] and [rating] is the row's value when that value is truthy and
    the fixed default ('/img/menu/default.jpg', '$', 5) when it is falsy,
    which covers [null] and [undefined]; none of the three is ever [null] or
    [undefined]. *)
Theorem menu_defaults (r : row) (i : Menu.item) :
  Menu.make_item r = Ok i ->
  (truthy (get r "image") = true -> Menu.image i = get r "image")
  /\ (truthy (get r "currency") = true -> Menu.currency i = get r "currency")
  /\ (truthy (get r "rating") = true -> Menu.rating i = get r "rating")
  /\ (truthy (get r "image") = false ->
      Menu.image i = VStr "/img/menu/default.jpg")
  /\ (truthy (get r "currency") = false -> Menu.currency i = VStr "$")
  /\ (truthy (get r "rating") = false -> Menu.rating i = VNum 5)
  /\ (nullish (get r "image") = true ->
      Menu.image i = VStr "/img/menu/default.jpg")
  /\ (nullish (get r "currency") = true -> Menu.currency i = VStr "$")
  /\ (nullish (get r "rating") = true -> Menu.rating i = VNum 5)
  /\ nullish (Menu.image i) = false
  /\ nullish (Menu.currency i) = false
  /\ nullish (Menu.rating i) = false.
Proof.
  intros H. apply make_item_ok in H.
  destruct H as (I & _ & _ & C & R & _ & _).
  rewrite I, C, R.
  repeat match goal with |- _ /\ _ => split end;
    first [ apply or_else_truthy | apply or_else_falsy
          | apply or_else_nullish | now apply or_else_not_nullish ].
Qed.

Lemma menu_defaults_witness :
  exists i, Menu.make_item Samples.fish = Ok i
            /\ Menu.rating i = VNum 5
            /\ Menu.image i = VStr "/img/menu/default.jpg".
Proof.
  eexists. split; [reflexivity|].
  destruct (menu_defaults Samples.fish _ eq_refl)
    as (_ & _ & _ & _ & _ & _ & I & _ & R & _).
  split; [apply R | apply I]; reflexivity.
Defined.

(** ** First occurrences *)

Local Open Scope list_scope.

Section FirstOccurrences.

Context {A : Type} (eqb : A -> A -> bool).
Hypothesis eqb_eq : forall a b, eqb a b = true <-> a = b.

Lemma eqb_same (a : A) : eqb a a = true.
Proof. now apply eqb_eq. Qed.

Lemma eqb_differ (a b : A) : a <> b -> eqb a b = false.
Proof.
  intros N. destruct (eqb a b) eqn:E; [|reflexivity].
  now apply eqb_eq in E.
Qed.

Lemma existsb_eqb (a : A) (l : list A) :
  existsb (eqb a) l = true <-> In a l.
Proof.
  rewrite existsb_exists. split.
  - intros (b & Hb & E). apply eqb_eq in E. now subst.
  - intros H. exists a. split; [assumption | apply eqb_same].
Qed.

Lemma first_occurrences_In (a : A) (l : list A) :
  In a (first_occurrences eqb l) <-> In a l.
Proof.
  induction l as [|x l IH]; [reflexivity|].
  cbn [first_occurrences In]. rewrite filter_In, IH.
  destruct (eqb x a) eqn:E.
  - apply eqb_eq in E. intuition discriminate.
  - intuition.
Qed.

Lemma first_occurrences_NoDup (l : list A) :
  NoDup (first_occurrences eqb l).
Proof.
  induction l as [|x l IH]; [constructor|].
  cbn [first_occurrences]. constructor.
  - rewrite filter_In. intros [_ H]. now rewrite eqb_same in H.
  - now apply NoDup_filter.
Qed.

Lemma existsb_first_occurrences (a : A) (l : list A) :
  existsb (eqb a) (first_occurrences eqb l) = existsb (eqb a) l.
Proof.
  apply Bool.eq_iff_eq_true.
  now rewrite !existsb_eqb, first_occurrences_In.
Qed.

(** Appending an element appends its key only when the key is new. *)
Lemma first_occurrences_snoc (l : list A) (a : A) :
  first_occurrences eqb (l ++ [a])
  = if existsb (eqb a) l then first_occurrences eqb l
    else first_occurrences eqb l ++ [a].
Proof.
  induction l as [|x l IH]; [reflexivity|].
  cbn [app first_occurrences existsb]. rewrite IH.
  destruct (existsb (eqb a) l) eqn:E.
  - now rewrite orb_true_r.
  - rewrite orb_false_r, filter_app. cbn [filter].
    destruct (eqb a x) eqn:Eax.
    + apply eqb_eq in Eax. subst x. rewrite eqb_same. cbn [negb].
      now rewrite app_nil_r.
    + assert (Exa : eqb x a = false).
      { apply eqb_differ. intros ->. now rewrite eqb_same in Eax. }
      now rewrite Exa.
Qed.

End FirstOccurrences.

Lemma strict_eq_eq (a b : value) : strict_eq a b = true <-> a = b.
Proof.
  unfold strict_eq. destruct (value_eq_dec a b); split; congruence.
Qed.

(** ** The FAQ grouping *)

Lemma faq_find_named (f : value -> Faq.category) (n : value)
  (names : list value) :
  (forall m, Faq.name (f m) = m) ->
  find (fun cat => strict_eq (Faq.name cat) n) (map f names)
  = if existsb (strict_eq n) names then Some (f n) else None.
Proof.
  intros Hf. induction names as [|m names IH]; [reflexivity|].
  cbn [map find existsb]. rewrite Hf.
  destruct (strict_eq m n) eqn:E.
  - apply strict_eq_eq in E. subst m.
    now rewrite (eqb_same _ strict_eq_eq).
  - rewrite IH. rewrite (eqb_differ _ strict_eq_eq n m); [reflexivity|].
    intros ->. now rewrite (eqb_same _ strict_eq_eq) in E.
Qed.

(** Pushing to the first category of a name rewrites that one entry. *)
Lemma faq_push_named (f g : value -> Faq.category) (n : value)
  (i : Faq.item) (names : list value) :
  NoDup names ->
  (forall m, Faq.name (f m) = m) ->
  (forall m, m <> n -> g m = f m) ->
  g n = Faq.push (f n) i ->
  In n names ->
  Faq.push_to_first n i (map f names) = map g names.
Proof.
  intros ND Hf Hg Hn. induction names as [|m names IH]; [intros []|].
  intros Hin. cbn [map Faq.push_to_first]. rewrite Hf.
  inversion ND as [|? ? Hm ND']; subst.
  destruct (strict_eq m n) eqn:E.
  - apply strict_eq_eq in E. subst m. rewrite Hn. f_equal.
    apply map_ext_in. intros m Hmin. symmetry. apply Hg.
    intros ->. contradiction.
  - assert (m <> n) by (intros ->; now rewrite (eqb_same _ strict_eq_eq) in E).
    rewrite Hg by assumption. f_equal. apply IH; [assumption|].
    destruct Hin; [contradiction | assumption].
Qed.

Lemma faq_rows_of_snoc (n : value) (rows : list row) (r : row) :
  Faq.rows_of n (rows ++ [r])
  = Faq.rows_of n rows ++ (if strict_eq (Faq.name_of r) n then [r] else []).
Proof. unfold Faq.rows_of. now rewrite filter_app. Qed.

Lemma faq_rows_of_none (n : value) (rows : list row) :
  ~ In n (map Faq.name_of rows) -> Faq.rows_of n rows = [].
Proof.
  intros H. unfold Faq.rows_of. induction rows as [|r rows IH]; [reflexivity|].
  cbn [filter]. destruct (strict_eq (Faq.name_of r) n) eqn:E.
  - apply strict_eq_eq in E. exfalso. apply H. now left.
  - apply IH. intros Hin. apply H. now right.
Qed.

Lemma faq_step_spec (rows : list row) (r : row) :
  Faq.step (map (Faq.category_of rows) (Faq.category_names rows)) r
  = map (Faq.category_of (rows ++ [r])) (Faq.category_names (rows ++ [r])).
Proof.
  unfold Faq.step, Faq.category_names.
  rewrite map_app. cbn [map].
  rewrite (first_occurrences_snoc _ strict_eq_eq).
  fold (Faq.name_of r).
  rewrite faq_find_named by reflexivity.
  rewrite (existsb_first_occurrences _ strict_eq_eq).
  destruct (existsb (strict_eq (Faq.name_of r)) (map Faq.name_of rows)) eqn:E.
  - apply (existsb_eqb _ strict_eq_eq) in E.
    apply faq_push_named.
    + apply (first_occurrences_NoDup _ strict_eq_eq).
    + reflexivity.
    + intros m Hm. unfold Faq.category_of. rewrite faq_rows_of_snoc.
      rewrite (eqb_differ _ strict_eq_eq); [now rewrite app_nil_r | congruence].
    + unfold Faq.category_of, Faq.push. cbn [Faq.name Faq.items].
      rewrite faq_rows_of_snoc, (eqb_same _ strict_eq_eq), map_app.
      reflexivity.
    + now apply (first_occurrences_In _ strict_eq_eq).
  - assert (N : ~ In (Faq.name_of r) (map Faq.name_of rows)).
    { intros Hin. apply (existsb_eqb _ strict_eq_eq) in Hin. congruence. }
    rewrite map_app. cbn [map]. f_equal.
    + apply map_ext_in. intros m Hm.
      apply -> (first_occurrences_In _ strict_eq_eq) in Hm.
      unfold Faq.category_of. rewrite faq_rows_of_snoc.
      rewrite (eqb_differ _ strict_eq_eq); [now rewrite app_nil_r|].
      intros Heq. apply N. now rewrite Heq.
    + unfold Faq.category_of. rewrite faq_rows_of_snoc.
      now rewrite (eqb_same _ strict_eq_eq), faq_rows_of_none.
Qed.

Lemma faq_categories_spec (rows : list row) :
  Faq.categories rows
  = map (Faq.category_of rows) (Faq.category_names rows).
Proof.
  unfold Faq.categories.
  induction rows as [|r rows IH] using rev_ind; [reflexivity|].
  rewrite fold_left_app. cbn [fold_left]. rewrite IH.
  apply faq_step_spec.
Qed.

(** C5.  The FAQ grouping puts the rows of one [category_name] under one
    entry: the names of the entries are pairwise different, they are the
    names of the rows in order of first occurrence, every row's name has its
    entry, and an entry's items are the [{title, text}] pairs of the rows of
    its name, in row order. *)
Theorem faq_grouping (rows : list row) :
  Faq.categories rows
  = map (fun n =>
           Faq.mkCategory n
             (map (fun r => Faq.mkItem (get r "title") (get r "text"))
                (filter (fun r => strict_eq (get r "category_name") n) rows)))
      (first_occurrences strict_eq
         (map (fun r => get r "category_name") rows))
  /\ NoDup (map Faq.name (Faq.categories rows))
  /\ map Faq.name (Faq.categories rows)
     = first_occurrences strict_eq (map (fun r => get r "category_name") rows)
  /\ (forall r, In r rows ->
      exists c, In c (Faq.categories rows)
                /\ Faq.name c = get r "category_name")
  /\ (forall c, In c (Faq.categories rows) ->
      Faq.items c
      = map (fun r => Faq.mkItem (get r "title") (get r "text"))
          (filter (fun r => strict_eq (get r "category_name") (Faq.name c))
             rows)).
Proof.
  pose proof (faq_categories_spec rows) as S.
  assert (Names : map Faq.name (Faq.categories rows)
                  = Faq.category_names rows).
  { rewrite S, map_map. cbn [Faq.category_of Faq.name]. apply map_id. }
  split; [exact S|]. split; [|split; [exact Names|split]].
  - rewrite Names. apply (first_occurrences_NoDup _ strict_eq_eq).
  - intros r Hr.
    assert (Hn : In (Faq.name_of r) (Faq.category_names rows)).
    { apply (first_occurrences_In _ strict_eq_eq). now apply in_map. }
    exists (Faq.category_of rows (Faq.name_of r)). split; [|reflexivity].
    rewrite S. now apply in_map.
  - intros c Hc. rewrite S in Hc. apply in_map_iff in Hc as (n & <- & _).
    reflexivity.
Qed.

Lemma faq_grouping_witness :
  let rows := [ Samples.faq_row "Orders" "How do I order?" "Online.";
                Samples.faq_row "Opening" "When are you open?" "Daily.";
                Samples.faq_row "Orders" "Can I cancel?" "Yes." ] in
  exists c, In c (Faq.categories rows) /\ Faq.name c = VStr "Opening".
Proof.
  intros rows.
  apply (proj1 (proj2 (proj2 (proj2 (faq_grouping rows))))
           (Samples.faq_row "Opening" "When are you open?" "Daily.")).
  simpl. tauto.
Defined.

(** ** The menu grouping *)

Lemma reduce_snoc {A} (f : A -> row -> result A) (rows : list row) (r : row)
  (acc : A) :
  reduce f (rows ++ [r]) acc = let* a := reduce f rows acc in f a r.
Proof.
  revert acc. induction rows as [|x rows IH]; intros acc; cbn [app reduce].
  - cbn [bind]. destruct (f acc r); reflexivity.
  - destruct (f acc x); cbn [bind]; [apply IH | reflexivity].
Qed.

Section OwnProperties.

Variable f : string -> Menu.category.

Lemma get_own_object_of (ks : list string) (k : string) :
  Menu.get_own (Menu.object_of f ks) k
  = if existsb (String.eqb k) ks then Some (f k) else None.
Proof.
  induction ks as [|m ks IH]; [reflexivity|].
  cbn [Menu.object_of map Menu.get_own existsb]. rewrite String.eqb_sym.
  destruct (String.eqb k m) eqn:E; [|exact IH].
  apply String.eqb_eq in E. now subst.
Qed.

Lemma get_own_app (o o' : Menu.object) (k : string) :
  Menu.get_own (o ++ o') k
  = match Menu.get_own o k with
    | Some c => Some c
    | None => Menu.get_own o' k
    end.
Proof.
  induction o as [|[m c] o IH]; [reflexivity|].
  cbn [app Menu.get_own]. now destruct (String.eqb m k).
Qed.

Lemma set_own_app (o o' : Menu.object) (k : string) (c : Menu.category) :
  Menu.get_own o k = None ->
  Menu.set_own (o ++ o') k c = o ++ Menu.set_own o' k c.
Proof.
  induction o as [|[m d] o IH]; [reflexivity|].
  cbn [app Menu.get_own Menu.set_own].
  destruct (String.eqb m k); [discriminate|].
  intros H. now rewrite IH.
Qed.

End OwnProperties.

Lemma set_own_object_of (f g : string -> Menu.category) (ks : list string)
  (k : string) :
  NoDup ks ->
  In k ks ->
  (forall m, m <> k -> g m = f m) ->
  Menu.set_own (Menu.object_of f ks) k (g k) = Menu.object_of g ks.
Proof.
  intros ND Hin Hg. induction ks as [|m ks IH]; [destruct Hin|].
  inversion ND as [|? ? Hm ND']; subst.
  cbn [Menu.object_of map Menu.set_own].
  destruct (String.eqb m k) eqn:E.
  - apply String.eqb_eq in E. subst m. f_equal.
    apply map_ext_in. intros m Hmin. rewrite Hg; [reflexivity|].
    intros ->. contradiction.
  - apply String.eqb_neq in E. rewrite (Hg m) by assumption. f_equal.
    apply IH; [assumption|]. destruct Hin; [contradiction | assumption].
Qed.

Lemma menu_rows_of_snoc (k : string) (rows : list row) (r : row) :
  Menu.rows_of k (rows ++ [r])
  = Menu.rows_of k rows ++ (if String.eqb (Menu.key_of r) k then [r] else []).
Proof. unfold Menu.rows_of. now rewrite filter_app. Qed.

Lemma menu_rows_of_none (k : string) (rows : list row) :
  ~ In k (map Menu.key_of rows) -> Menu.rows_of k rows = [].
Proof.
  intros H. unfold Menu.rows_of.
  induction rows as [|r rows IH]; [reflexivity|].
  cbn [filter]. destruct (String.eqb (Menu.key_of r) k) eqn:E.
  - apply String.eqb_eq in E. exfalso. apply H. now left.
  - apply IH. intros Hin. apply H. now right.
Qed.

Lemma menu_rows_of_some (k : string) (rows : list row) :
  In k (map Menu.key_of rows) -> Menu.rows_of k rows <> [].
Proof.
  intros H E. apply in_map_iff in H as (r & Hk & Hr).
  assert (X : In r (Menu.rows_of k rows)).
  { apply filter_In. split; [assumption|]. now apply String.eqb_eq. }
  rewrite E in X. destruct X.
Qed.

Lemma items_of_app (a b : list row) :
  Menu.items_of (a ++ b) = Menu.items_of a ++ Menu.items_of b.
Proof.
  induction a as [|r a IH]; [reflexivity|].
  cbn [app Menu.items_of]. destruct (truthy (get r "id")); [|exact IH].
  destruct (Menu.make_item r); [|exact IH]. now rewrite IH.
Qed.

Lemma category_of_snoc_other (rows : list row) (r : row) (k : string) :
  Menu.key_of r <> k ->
  Menu.category_of (rows ++ [r]) k = Menu.category_of rows k.
Proof.
  intros N. unfold Menu.category_of. rewrite menu_rows_of_snoc.
  apply String.eqb_neq in N. rewrite N. now rewrite app_nil_r.
Qed.

Lemma category_of_snoc_known (rows : list row) (r : row) :
  In (Menu.key_of r) (map Menu.key_of rows) ->
  Menu.category_of (rows ++ [r]) (Menu.key_of r)
  = Menu.mkCategory
      (Menu.name (Menu.category_of rows (Menu.key_of r)))
      (Menu.slug (Menu.category_of rows (Menu.key_of r)))
      (Menu.description (Menu.category_of rows (Menu.key_of r)))
      (Menu.items (Menu.category_of rows (Menu.key_of r))
       ++ Menu.items_of [r]).
Proof.
  intros H. apply menu_rows_of_some in H.
  unfold Menu.category_of. rewrite menu_rows_of_snoc, String.eqb_refl.
  cbn [Menu.name Menu.slug Menu.description Menu.items].
  rewrite items_of_app.
  destruct (Menu.rows_of (Menu.key_of r) rows); [contradiction | reflexivity].
Qed.

Lemma category_of_snoc_new (rows : list row) (r : row) :
  ~ In (Menu.key_of r) (map Menu.key_of rows) ->
  Menu.category_of (rows ++ [r]) (Menu.key_of r)
  = Menu.mkCategory (get r "category_name") (get r "category_slug")
      (get r "category_description") (Menu.items_of [r]).
Proof.
  intros H. unfold Menu.category_of.
  rewrite menu_rows_of_snoc, String.eqb_refl, menu_rows_of_none by assumption.
  reflexivity.
Qed.

Lemma category_keys_In (rows : list row) (k : string) :
  In k (Menu.category_keys rows)
  <-> In k (map Menu.key_of rows) /\ inherited k = false.
Proof.
  unfold Menu.category_keys.
  rewrite (first_occurrences_In _ String.eqb_eq), filter_In, negb_true_iff.
  reflexivity.
Qed.

Lemma category_keys_NoDup (rows : list row) : NoDup (Menu.category_keys rows).
Proof. apply (first_occurrences_NoDup _ String.eqb_eq). Qed.

Lemma category_keys_snoc (rows : list row) (r : row) :
  Menu.category_keys (rows ++ [r])
  = if inherited (Menu.key_of r) then Menu.category_keys rows
    else if existsb (String.eqb (Menu.key_of r)) (Menu.category_keys rows)
         then Menu.category_keys rows
         else Menu.category_keys rows ++ [Menu.key_of r].
Proof.
  unfold Menu.category_keys. rewrite map_app, filter_app. cbn [map filter].
  destruct (inherited (Menu.key_of r)); cbn [negb].
  - now rewrite app_nil_r.
  - rewrite (first_occurrences_snoc _ String.eqb_eq).
    now rewrite (existsb_first_occurrences _ String.eqb_eq).
Qed.

Lemma has_truthy_grouped (rows : list row) (k : string) :
  Menu.has_truthy (Menu.grouped rows) k
  = existsb (String.eqb k) (Menu.category_keys rows) || inherited k.
Proof.
  unfold Menu.has_truthy, Menu.grouped. rewrite get_own_object_of.
  now destruct (existsb (String.eqb k) (Menu.category_keys rows)).
Qed.

Lemma make_item_total (r : row) :
  if negb (nullish (get r "price"))
     && (negb (truthy (get r "badge"))
         || match get r "badge" with VStr _ => true | _ => false end)
  then exists i, Menu.make_item r = Ok i
  else exists e, Menu.make_item r = Throw e.
Proof.
  unfold Menu.make_item.
  destruct (get r "price") as [| |b|z|s]; cbn [nullish negb andb toString bind];
    try (eexists; reflexivity);
    destruct (get r "badge") as [| |[|]|z'|s'];
    cbn [truthy negb orb decodeHtml bind];
    try (eexists; reflexivity).
  all: try (destruct (Z.eqb z' 0); cbn [negb bind decodeHtml];
            eexists; reflexivity).
  all: destruct (String.eqb s' ""); cbn [negb bind decodeHtml];
    eexists; reflexivity.
Qed.

Lemma category_eta (c : Menu.category) :
  Menu.mkCategory (Menu.name c) (Menu.slug c) (Menu.description c)
    (Menu.items c ++ []) = c.
Proof. destruct c. cbn. now rewrite app_nil_r. Qed.

Lemma items_of_one (r : row) :
  Menu.items_of [r]
  = if truthy (get r "id")
    then match Menu.make_item r with Ok i => [i] | Throw _ => [] end
    else [].
Proof.
  cbn [Menu.items_of]. destruct (truthy (get r "id")); [|reflexivity].
  now destruct (Menu.make_item r).
Qed.

Lemma shapeable_item (r : row) :
  Menu.shapeable r = true ->
  truthy (get r "id") = true ->
  inherited (Menu.key_of r) = false /\ exists i, Menu.make_item r = Ok i.
Proof.
  unfold Menu.shapeable. intros Sh T. rewrite T in Sh.
  pose proof (make_item_total r) as M.
  destruct (inherited (Menu.key_of r)); [discriminate|].
  cbn [negb andb] in Sh. rewrite Sh in M. now split.
Qed.

(** One step of the reduction on a row that can be shaped: the accumulator
    goes from the grouping of the rows seen to the grouping with the row
    added. *)
Lemma step_grouped_ok (rows : list row) (r : row) :
  Menu.shapeable r = true ->
  Menu.step (Menu.grouped rows) r = Ok (Menu.grouped (rows ++ [r])).
Proof.
  intros Sh. unfold Menu.step. fold (Menu.key_of r).
  rewrite has_truthy_grouped.
  change (Menu.grouped (rows ++ [r]))
    with (Menu.object_of (Menu.category_of (rows ++ [r]))
            (Menu.category_keys (rows ++ [r]))).
  rewrite category_keys_snoc.
  pose proof (items_of_one r) as One.
  destruct (inherited (Menu.key_of r)) eqn:Inh.
  - assert (Ex : existsb (String.eqb (Menu.key_of r)) (Menu.category_keys rows)
                 = false).
    { destruct (existsb _ _) eqn:E; [|reflexivity].
      apply (existsb_eqb _ String.eqb_eq), category_keys_In in E.
      destruct E; congruence. }
    rewrite Ex. cbn [orb negb].
    destruct (truthy (get r "id")) eqn:T.
    + destruct (shapeable_item r Sh T). congruence.
    + apply f_equal. symmetry. apply map_ext_in. intros m Hm.
      rewrite category_of_snoc_other; [reflexivity|].
      intros E. apply category_keys_In in Hm as [_ Hm]. congruence.
  - destruct (existsb (String.eqb (Menu.key_of r)) (Menu.category_keys rows))
      eqn:Ex; cbn [orb negb].
    + pose proof Ex as Hin.
      apply (existsb_eqb _ String.eqb_eq) in Hin.
      pose proof (proj1 (proj1 (category_keys_In _ _) Hin)) as Hin'.
      pose proof (category_of_snoc_known rows r Hin') as Known.
      rewrite One in Known.
      destruct (truthy (get r "id")) eqn:T.
      * destruct (shapeable_item r Sh T) as (_ & i & Hi).
        rewrite Hi in Known.
        unfold Menu.grouped. rewrite get_own_object_of, Ex, Hi. cbn [bind].
        apply f_equal.
        change (Menu.push (Menu.category_of rows (Menu.key_of r)) i)
          with (Menu.mkCategory
                  (Menu.name (Menu.category_of rows (Menu.key_of r)))
                  (Menu.slug (Menu.category_of rows (Menu.key_of r)))
                  (Menu.description (Menu.category_of rows (Menu.key_of r)))
                  (Menu.items (Menu.category_of rows (Menu.key_of r)) ++ [i])).
        rewrite <- Known.
        apply set_own_object_of; [apply category_keys_NoDup | assumption |].
        intros m Hm. apply category_of_snoc_other. congruence.
      * rewrite category_eta in Known. apply f_equal. symmetry.
        apply map_ext_in. intros m Hm.
        destruct (string_dec (Menu.key_of r) m) as [<-|N].
        -- now rewrite Known.
        -- now rewrite category_of_snoc_other.
    + assert (Hnin : ~ In (Menu.key_of r) (map Menu.key_of rows)).
      { intros Hin.
        assert (X : In (Menu.key_of r) (Menu.category_keys rows))
          by now apply category_keys_In.
        apply (existsb_eqb _ String.eqb_eq) in X. congruence. }
      pose proof (category_of_snoc_new rows r Hnin) as New.
      rewrite One in New.
      assert (Old : Menu.object_of (Menu.category_of (rows ++ [r]))
                      (Menu.category_keys rows)
                    = Menu.grouped rows).
      { apply map_ext_in. intros m Hm.
        rewrite category_of_snoc_other; [reflexivity|].
        intros E. apply Hnin. rewrite E.
        now apply category_keys_In in Hm as [Hm _]. }
      assert (Absent : Menu.get_own (Menu.grouped rows) (Menu.key_of r) = None).
      { unfold Menu.grouped. now rewrite get_own_object_of, Ex. }
      unfold Menu.object_of at 1. rewrite map_app.
      fold (Menu.object_of (Menu.category_of (rows ++ [r]))
              (Menu.category_keys rows)).
      rewrite Old. cbn [map]. rewrite New.
      destruct (truthy (get r "id")) eqn:T.
      * destruct (shapeable_item r Sh T) as (_ & i & Hi).
        rewrite get_own_app, Absent. cbn [Menu.get_own].
        rewrite String.eqb_refl, Hi. cbn [bind].
        rewrite set_own_app by assumption. cbn [Menu.set_own].
        now rewrite String.eqb_refl.
      * reflexivity.
Qed.

Lemma step_grouped_throw (rows : list row) (r : row) :
  Menu.shapeable r = false ->
  exists e, Menu.step (Menu.grouped rows) r = Throw e.
Proof.
  unfold Menu.shapeable. intros Sh.
  destruct (truthy (get r "id")) eqn:T; [|discriminate].
  unfold Menu.step. fold (Menu.key_of r). rewrite has_truthy_grouped, T.
  destruct (inherited (Menu.key_of r)) eqn:Inh.
  - assert (Ex : existsb (String.eqb (Menu.key_of r)) (Menu.category_keys rows)
                 = false).
    { destruct (existsb _ _) eqn:E; [|reflexivity].
      apply (existsb_eqb _ String.eqb_eq), category_keys_In in E.
      destruct E; congruence. }
    rewrite Ex. cbn [orb negb]. unfold Menu.grouped.
    rewrite get_own_object_of, Ex. eexists. reflexivity.
  - cbn [negb andb] in Sh.
    pose proof (make_item_total r) as M. rewrite Sh in M.
    destruct M as (e & He). exists e.
    destruct (existsb (String.eqb (Menu.key_of r)) (Menu.category_keys rows))
      eqn:Ex; cbn [orb negb].
    + unfold Menu.grouped. now rewrite get_own_object_of, Ex, He.
    + rewrite get_own_app. unfold Menu.grouped.
      rewrite get_own_object_of, Ex. cbn [Menu.get_own].
      now rewrite String.eqb_refl, He.
Qed.

(** The reduction succeeds exactly on rows that can all be shaped, and then
    leaves the grouping of the rows in the accumulator. *)
Lemma reduce_step_grouped (rows : list row) :
  if forallb Menu.shapeable rows
  then reduce Menu.step rows [] = Ok (Menu.grouped rows)
  else exists e, reduce Menu.step rows [] = Throw e.
Proof.
  induction rows as [|r rows IH] using rev_ind; [reflexivity|].
  rewrite forallb_app, reduce_snoc. cbn [forallb].
  destruct (forallb Menu.shapeable rows).
  - rewrite IH. cbn [bind andb]. rewrite andb_true_r.
    destruct (Menu.shapeable r) eqn:Sh.
    + now apply step_grouped_ok.
    + now apply step_grouped_throw.
  - destruct IH as (e & ->). now exists e.
Qed.

(** ** Enumeration order of the accumulator *)

Lemma to_uint_not_nil (n : N) : N.to_uint n <> Decimal.Nil.
Proof.
  intros E. pose proof (DecimalN.Unsigned.of_to n) as H.
  rewrite E in H. cbn in H. subst n. discriminate.
Qed.

Lemma parse_string_of_N (n : N) :
  NilZero.uint_of_string (string_of_N n) = Some (N.to_uint n).
Proof. apply NilZero.usu, to_uint_not_nil. Qed.

Lemma string_of_N_inj (a b : N) : string_of_N a = string_of_N b -> a = b.
Proof.
  intros E. apply DecimalN.Unsigned.to_uint_inj.
  pose proof (parse_string_of_N a) as Ha. rewrite E, parse_string_of_N in Ha.
  congruence.
Qed.

Lemma string_of_N_eqb (a b : N) :
  String.eqb (string_of_N a) (string_of_N b) = N.eqb a b.
Proof.
  destruct (N.eqb_spec a b) as [->|N].
  - apply String.eqb_refl.
  - apply String.eqb_neq. intros E. now apply string_of_N_inj in E.
Qed.

Lemma array_index_string_of_N (n : N) :
  array_index (string_of_N n)
  = if (n <? 4294967295)%N then Some n else None.
Proof.
  unfold array_index. rewrite parse_string_of_N.
  cbv zeta. rewrite DecimalN.Unsigned.of_to, String.eqb_refl.
  reflexivity.
Qed.

Lemma array_index_canonical (k : string) (n : N) :
  array_index k = Some n -> k = string_of_N n.
Proof.
  unfold array_index. destruct (NilZero.uint_of_string k); [|discriminate].
  cbv zeta.
  destruct (String.eqb (string_of_N (N.of_uint u)) k) eqn:E; [|discriminate].
  destruct (N.of_uint u <? 4294967295)%N; [|discriminate].
  cbn [andb]. intros [= <-]. symmetry. now apply String.eqb_eq.
Qed.

Lemma inherited_not_numeral (n : N) : inherited (string_of_N n) = false.
Proof.
  destruct (inherited (string_of_N n)) eqn:E; [|reflexivity].
  pose proof (parse_string_of_N n) as P.
  unfold inherited in E. apply existsb_exists in E as (name & Hin & Heq).
  apply String.eqb_eq in Heq. rewrite Heq in P.
  cbn [object_prototype_names In] in Hin.
  repeat (destruct Hin as [<-|Hin]; [discriminate P|]).
  destruct Hin.
Qed.

Lemma string_of_Z_of_N (n : N) : string_of_Z (Z.of_N n) = string_of_N n.
Proof. now destruct n. Qed.

Lemma insert_asc_perm (n : N) (l : list N) :
  Permutation (insert_asc n l) (n :: l).
Proof.
  induction l as [|m l IH]; [reflexivity|].
  cbn [insert_asc]. destruct (n <=? m)%N; [reflexivity|].
  rewrite IH. apply perm_swap.
Qed.

Lemma sort_asc_perm (l : list N) : Permutation (sort_asc l) l.
Proof.
  induction l as [|n l IH]; [reflexivity|].
  cbn [sort_asc fold_right]. fold (sort_asc l).
  rewrite insert_asc_perm. now constructor.
Qed.

Lemma insert_asc_sorted (n : N) (l : list N) :
  StronglySorted N.le l -> StronglySorted N.le (insert_asc n l).
Proof.
  induction 1 as [|m l S IH F]; cbn [insert_asc].
  - repeat constructor.
  - destruct (N.leb_spec n m) as [L|L].
    + constructor; [now constructor|].
      constructor; [assumption|].
      eapply Forall_impl; [|exact F]. intros x Hx. lia.
    + constructor; [assumption|].
      eapply Permutation_Forall; [symmetry; apply insert_asc_perm|].
      constructor; [lia | assumption].
Qed.

(** The array-index keys come out in ascending order. *)
Lemma sort_asc_sorted (l : list N) : StronglySorted N.le (sort_asc l).
Proof.
  induction l as [|n l IH]; [constructor|].
  cbn [sort_asc fold_right]. now apply insert_asc_sorted.
Qed.

Lemma sort_asc_id (l : list N) : StronglySorted N.le l -> sort_asc l = l.
Proof.
  induction 1 as [|n l S IH F]; [reflexivity|].
  cbn [sort_asc fold_right]. fold (sort_asc l). rewrite IH.
  destruct l as [|m l]; [reflexivity|].
  cbn [insert_asc]. inversion F as [|? ? L _]; subst.
  apply N.leb_le in L. now rewrite L.
Qed.

Lemma own_property_keys_perm (ks : list string) :
  Permutation (own_property_keys ks) ks.
Proof.
  unfold own_property_keys. rewrite sort_asc_perm.
  induction ks as [|k ks IH]; [reflexivity|].
  cbn [indices_of filter]. unfold is_array_index.
  destruct (array_index k) as [n|] eqn:E; cbn [negb map app].
  - apply array_index_canonical in E. subst k. now constructor.
  - rewrite <- Permutation_middle. now constructor.
Qed.

Lemma own_property_keys_plain (ks : list string) :
  forallb (fun k => negb (is_array_index k)) ks = true ->
  own_property_keys ks = ks.
Proof.
  unfold own_property_keys. intros H.
  assert (I : indices_of ks = []).
  { induction ks as [|k ks IH]; [reflexivity|].
    cbn [forallb] in H. apply andb_true_iff in H as [Hk H].
    cbn [indices_of]. unfold is_array_index in Hk.
    destruct (array_index k); [discriminate | now apply IH]. }
  rewrite I. cbn [sort_asc fold_right map app].
  induction ks as [|k ks IH]; [reflexivity|].
  cbn [forallb] in H. apply andb_true_iff in H as [Hk H].
  cbn [filter]. rewrite Hk. f_equal. apply IH; [assumption|].
  cbn [indices_of] in I. unfold is_array_index in Hk.
  now destruct (array_index k).
Qed.

Lemma own_property_keys_ascending (ns : list N) :
  StronglySorted N.le ns ->
  Forall (fun n => (n < 4294967295)%N) ns ->
  own_property_keys (map string_of_N ns) = map string_of_N ns.
Proof.
  intros S F. unfold own_property_keys.
  assert (I : indices_of (map string_of_N ns) = ns
              /\ filter (fun k => negb (is_array_index k)) (map string_of_N ns)
                 = []).
  { clear S. induction F as [|n ns Hn F [IH1 IH2]]; [now split|].
    cbn [map indices_of filter]. unfold is_array_index.
    rewrite array_index_string_of_N.
    apply N.ltb_lt in Hn. rewrite Hn. cbn [negb]. now rewrite IH1. }
  destruct I as [-> ->]. now rewrite sort_asc_id, app_nil_r.
Qed.

Lemma first_occurrences_map {A B} (eqa : A -> A -> bool)
  (eqb : B -> B -> bool) (g : A -> B) (l : list A) :
  (forall a b, eqb (g a) (g b) = eqa a b) ->
  first_occurrences eqb (map g l) = map g (first_occurrences eqa l).
Proof.
  intros H. induction l as [|a l IH]; [reflexivity|].
  cbn [map first_occurrences]. rewrite IH. f_equal.
  generalize (first_occurrences eqa l). intros m.
  induction m as [|b m IHm]; [reflexivity|].
  cbn [map filter]. rewrite H. now destruct (eqa a b); cbn [negb map]; rewrite IHm.
Qed.

Lemma StronglySorted_filter {A} (R : A -> A -> Prop) (p : A -> bool)
  (l : list A) :
  StronglySorted R l -> StronglySorted R (filter p l).
Proof.
  induction 1 as [|a l S IH F]; [constructor|].
  cbn [filter]. destruct (p a); [|assumption].
  constructor; [assumption|].
  apply Forall_forall. intros x Hx. apply filter_In in Hx as [Hx _].
  revert x Hx. now apply Forall_forall.
Qed.

Lemma first_occurrences_sorted (ns : list N) :
  StronglySorted N.le ns ->
  StronglySorted N.le (first_occurrences N.eqb ns).
Proof.
  induction 1 as [|n ns S IH F]; [constructor|].
  cbn [first_occurrences]. constructor.
  - now apply StronglySorted_filter.
  - apply Forall_forall. intros x Hx. apply filter_In in Hx as [Hx _].
    apply -> (first_occurrences_In _ N.eqb_eq) in Hx.
    revert x Hx. now apply Forall_forall.
Qed.

(** Rows ordered by an array-index [category_id] have numerals for keys,
    in ascending order. *)
Lemma ascending_ids_keys (rows : list row) (lo : Z) :
  (0 <= lo)%Z ->
  Menu.ascending_ids lo rows = true ->
  exists ns,
    map Menu.key_of rows = map string_of_N ns
    /\ StronglySorted N.le ns
    /\ Forall (fun n => (Z.to_N lo <= n < 4294967295)%N) ns.
Proof.
  revert lo. induction rows as [|r rows IH]; intros lo Hlo H.
  - exists []. repeat split; constructor.
  - cbn [Menu.ascending_ids] in H.
    destruct (get r "category_id") as [| |b|z|s] eqn:G; try discriminate.
    apply andb_true_iff in H as [H Hrest].
    apply andb_true_iff in H as [Hz1 Hz2].
    apply Z.leb_le in Hz1. apply Z.ltb_lt in Hz2.
    destruct (IH z ltac:(lia) Hrest) as (ns & Hk & S & F).
    exists (Z.to_N z :: ns). split; [|split].
    + cbn [map]. rewrite <- Hk. f_equal.
      unfold Menu.key_of. rewrite G. cbn [ToString].
      now rewrite <- string_of_Z_of_N, Z2N.id by lia.
    + constructor; [assumption|].
      eapply Forall_impl; [|exact F]. cbn beta. intros n Hn. lia.
    + constructor; [lia|].
      eapply Forall_impl; [|exact F]. cbn beta. intros n Hn. lia.
Qed.

Lemma own_property_keys_ordered (rows : list row) :
  Menu.ordered_by_category_id rows = true ->
  own_property_keys (Menu.category_keys rows) = Menu.category_keys rows.
Proof.
  intros H. apply ascending_ids_keys in H as (ns & Hk & S & F); [|lia].
  unfold Menu.category_keys. rewrite Hk.
  assert (E : filter (fun k => negb (inherited k)) (map string_of_N ns)
              = map string_of_N ns).
  { clear. induction ns as [|n ns IH]; [reflexivity|].
    cbn [map filter]. now rewrite inherited_not_numeral, IH. }
  rewrite E, (first_occurrences_map N.eqb) by apply string_of_N_eqb.
  apply own_property_keys_ascending.
  - now apply first_occurrences_sorted.
  - apply Forall_forall. intros n Hn.
    apply -> (first_occurrences_In _ N.eqb_eq) in Hn.
    rewrite Forall_forall in F. apply F in Hn. lia.
Qed.

Lemma values_at_object_of (f : string -> Menu.category) (ks ks' : list string) :
  incl ks' ks ->
  Menu.values_at (Menu.object_of f ks) ks' = map f ks'.
Proof.
  induction ks' as [|k ks' IH]; intros I; [reflexivity|].
  cbn [Menu.values_at map]. rewrite get_own_object_of.
  assert (E : existsb (String.eqb k) ks = true).
  { apply (existsb_eqb _ String.eqb_eq). apply I. now left. }
  rewrite E. f_equal. apply IH. intros x Hx. apply I. now right.
Qed.

Lemma Object_values_grouped (rows : list row) :
  Menu.Object_values (Menu.grouped rows)
  = map (Menu.category_of rows) (own_property_keys (Menu.category_keys rows)).
Proof.
  unfold Menu.Object_values, Menu.grouped.
  assert (K : map fst (Menu.object_of (Menu.category_of rows)
                         (Menu.category_keys rows))
              = Menu.category_keys rows).
  { unfold Menu.object_of. rewrite map_map. apply map_id. }
  rewrite K. apply values_at_object_of.
  intros k Hk. eapply Permutation_in; [apply own_property_keys_perm | exact Hk].
Qed.

(** The grouping of [/api/menu], in one equation: it returns exactly on rows
    that can all be shaped, and then lists the category of each key, the
    array-index keys first and ascending, the others after them by first
    occurrence. *)
Lemma categories_spec (rows : list row) :
  if forallb Menu.shapeable rows
  then Menu.categories rows
       = Ok (map (Menu.category_of rows)
               (own_property_keys (Menu.category_keys rows)))
  else exists e, Menu.categories rows = Throw e.
Proof.
  unfold Menu.categories. pose proof (reduce_step_grouped rows) as R.
  destruct (forallb Menu.shapeable rows).
  - rewrite R. cbn [bind]. now rewrite Object_values_grouped.
  - destruct R as (e & ->). now exists e.
Qed.

Lemma categories_ok (rows : list row) (cats : list Menu.category) :
  Menu.categories rows = Ok cats ->
  forallb Menu.shapeable rows = true
  /\ cats = map (Menu.category_of rows)
              (own_property_keys (Menu.category_keys rows)).
Proof.
  intros H. pose proof (categories_spec rows) as S.
  destruct (forallb Menu.shapeable rows).
  - split; [reflexivity | congruence].
  - destruct S as (e & S). congruence.
Qed.

Lemma items_of_shapeable (rs : list row) :
  forallb Menu.shapeable rs = true ->
  map Ok (Menu.items_of rs)
  = map Menu.make_item (filter (fun r => truthy (get r "id")) rs).
Proof.
  induction rs as [|r rs IH]; [reflexivity|].
  cbn [forallb]. intros H. apply andb_true_iff in H as [Sh H].
  cbn [Menu.items_of filter].
  destruct (truthy (get r "id")) eqn:T; [|now apply IH].
  destruct (shapeable_item r Sh T) as (_ & i & Hi).
  rewrite Hi. cbn [map]. rewrite Hi. f_equal. now apply IH.
Qed.

Lemma forallb_filter {A} (p q : A -> bool) (l : list A) :
  forallb p l = true -> forallb p (filter q l) = true.
Proof.
  rewrite !forallb_forall. intros H x Hx.
  apply filter_In in Hx as [Hx _]. now apply H.
Qed.

Lemma filter_truthy_nullish (rs : list row) :
  forallb (fun r => nullish (get r "id")) rs = true ->
  filter (fun r => truthy (get r "id")) rs = [].
Proof.
  induction rs as [|r rs IH]; [reflexivity|].
  cbn [forallb filter]. intros H. apply andb_true_iff in H as [Hr H].
  destruct (get r "id"); try discriminate; now apply IH.
Qed.

(** The example of the specification: an item row of category 1 and the
    childless row of category 2. *)
Example menu_two_categories :
  Menu.categories
    [ Samples.menu_row 1 "A" "a" (VNum 1) (VStr "Pizza") VNull (VStr "10")
        VNull VNull VNull;
      Samples.menu_row 2 "B" "b" VNull VNull VNull VNull VNull VNull VNull ]
  = Ok [ Menu.mkCategory (VStr "A") (VStr "a") VNull
           [ Menu.mkItem (VStr "/img/menu/default.jpg") (VStr "Pizza") "10"
               (VStr "$") (VNum 5) VNull None ];
         Menu.mkCategory (VStr "B") (VStr "b") VNull [] ].
Proof. reflexivity. Qed.

(** Rows in ascending order of a [category_id] that is not an array index:
    the negative id comes first among the rows and last in the output. *)
Example menu_negative_id_last :
  exists cats,
    Menu.categories
      [ Samples.menu_row (-1) "Specials" "specials" VNull VNull VNull
          VNull VNull VNull VNull;
        Samples.soup ]
    = Ok cats
    /\ map Menu.name cats = [VStr "Starters"; VStr "Specials"].
Proof. eexists. split; reflexivity. Qed.

(** C1, as stated, fails: the category of id 2 occurs first among the rows
    and second in the output. *)
Lemma menu_order_counterexample :
  let rows := [Samples.fish; Samples.soup] in
  map (fun r => get r "category_name") rows = [VStr "Mains"; VStr "Starters"]
  /\ exists cats,
       Menu.categories rows = Ok cats
       /\ map Menu.name cats = [VStr "Starters"; VStr "Mains"].
Proof.
  split; [reflexivity|]. eexists. split; reflexivity.
Qed.

(** C1, amended.  When the menu grouping returns, its output lists one
    category per key (the string of [category_id]): first the keys that are
    array indices, integers from 0 to 2^32 - 2, in ascending numeric order,
    then the other keys in order of first occurrence among the rows.  So the
    categories are in order of first occurrence when no key is an array
    index, and when the rows come ordered by an array-index [category_id],
    as the query orders them.  Within a category the items are those built
    from its rows with a truthy [id], in row order. *)
Theorem menu_order (rows : list row) (cats : list Menu.category) :
  Menu.categories rows = Ok cats ->
  cats = map (Menu.category_of rows)
           (map string_of_N (sort_asc (indices_of (Menu.category_keys rows)))
            ++ filter (fun k => negb (is_array_index k))
                 (Menu.category_keys rows))
  /\ StronglySorted N.le (sort_asc (indices_of (Menu.category_keys rows)))
  /\ (forallb (fun k => negb (is_array_index k)) (Menu.category_keys rows)
      = true ->
      cats = map (Menu.category_of rows) (Menu.category_keys rows))
  /\ (Menu.ordered_by_category_id rows = true ->
      cats = map (Menu.category_of rows) (Menu.category_keys rows))
  /\ (forall k,
        map Ok (Menu.items (Menu.category_of rows k))
        = map Menu.make_item
            (filter (fun r => truthy (get r "id"))
               (filter (fun r => String.eqb (ToString (get r "category_id")) k)
                  rows))).
Proof.
  intros H. apply categories_ok in H as [Sh ->].
  split; [reflexivity|]. split; [apply sort_asc_sorted|].
  split; [|split].
  - intros P. now rewrite own_property_keys_plain.
  - intros O. now rewrite own_property_keys_ordered.
  - intros k. apply items_of_shapeable. now apply forallb_filter.
Qed.

Lemma menu_order_witness :
  let rows := [Samples.soup; Samples.fish; Samples.unrated;
               Samples.empty_category] in
  exists cats,
    Menu.categories rows = Ok cats
    /\ cats = map (Menu.category_of rows) (Menu.category_keys rows)
    /\ map Menu.name cats = [VStr "Starters"; VStr "Mains"; VStr "Desserts"].
Proof.
  intros rows. eexists. split; [reflexivity|]. split; [|reflexivity].
  apply (proj1 (proj2 (proj2 (proj2 (menu_order rows _ eq_refl))))).
  reflexivity.
Defined.

(** C2, as stated, fails: a row whose item id is 0 carries a non-null
    identifier, yet its category comes out with no item. *)
Lemma menu_item_counts_counterexample :
  let rows := [Samples.first_item] in
  List.length (filter (fun r => negb (nullish (get r "id"))) rows) = 1
  /\ Menu.categories rows
     = Ok [Menu.mkCategory (VStr "Starters") (VStr "starters") VNull []].
Proof. split; reflexivity. Qed.

(** C2, amended.  When the menu grouping returns, the output has exactly one
    entry for each category key, and the entry of a key has as many items as
    the key has rows with a truthy item identifier; in particular it has an
    empty items list when all its rows have a null identifier. *)
Theorem menu_item_counts (rows : list row) (cats : list Menu.category) :
  Menu.categories rows = Ok cats ->
  Permutation cats (map (Menu.category_of rows) (Menu.category_keys rows))
  /\ NoDup (Menu.category_keys rows)
  /\ (forall k, In k (Menu.category_keys rows) ->
      In (Menu.category_of rows k) cats
      /\ List.length (Menu.items (Menu.category_of rows k))
         = List.length (filter (fun r => truthy (get r "id")) (Menu.rows_of k rows))
      /\ (forallb (fun r => nullish (get r "id")) (Menu.rows_of k rows) = true ->
          Menu.items (Menu.category_of rows k) = [])).
Proof.
  intros H. apply categories_ok in H as [Sh ->].
  assert (P : Permutation
                (map (Menu.category_of rows)
                   (own_property_keys (Menu.category_keys rows)))
                (map (Menu.category_of rows) (Menu.category_keys rows)))
    by apply Permutation_map, own_property_keys_perm.
  split; [exact P|]. split; [apply category_keys_NoDup|].
  intros k Hk.
  assert (L : List.length (Menu.items (Menu.category_of rows k))
              = List.length (filter (fun r => truthy (get r "id"))
                          (Menu.rows_of k rows))).
  { rewrite <- (length_map Ok), <- (length_map Menu.make_item).
    f_equal. apply items_of_shapeable. now apply forallb_filter. }
  split; [|split; [exact L|]].
  - eapply Permutation_in; [symmetry; exact P|]. now apply in_map.
  - intros N.
    assert (E : filter (fun r => truthy (get r "id")) (Menu.rows_of k rows)
                = []) by now apply filter_truthy_nullish.
    rewrite E in L. now apply length_zero_iff_nil.
Qed.

Lemma menu_item_counts_witness :
  let rows := [Samples.soup; Samples.fish; Samples.unrated;
               Samples.empty_category] in
  exists cats,
    Menu.categories rows = Ok cats
    /\ List.length (Menu.items (Menu.category_of rows "2")) = 2
    /\ Menu.items (Menu.category_of rows "3") = [].
Proof.
  intros rows. eexists. split; [reflexivity|].
  destruct (menu_item_counts rows _ eq_refl) as (_ & _ & K).
  split.
  - apply (K "2"). simpl. tauto.
  - apply (K "3"); [simpl; tauto | reflexivity].
Defined.

(** C4, at a row with an item id and a null price: the grouping itself
    throws, and the route answers 500 with the TypeError's message although
    the query succeeded. *)
Theorem menu_unpriced_throws :
  Menu.categories [Samples.unpriced]
  = Throw (TypeError "Cannot read properties of null (reading 'toString')")
  /\ Routes.menu (Samples.pool_with [Samples.unpriced])
     = ([Routes.CQuery Routes.menu_sql],
        Routes.mkResponse 500
          (Routes.ErrorMessage
             "Cannot read properties of null (reading 'toString')")).
Proof. split; reflexivity. Qed.

(** ** Routes *)

Import Routes.

Lemma try_catch_query_throw (sql : string) (k : list row -> prog body)
  (h : error -> body) (db : pool) (e : error) :
  query db sql = Throw e ->
  try_catch (PoolQuery sql k) h db = ([CQuery sql], mkResponse 500 (h e)).
Proof. unfold try_catch. cbn [run]. now intros ->. Qed.

Lemma try_catch_query_return (sql : string) (f : list row -> body)
  (h : error -> body) (db : pool) (rows : list row) :
  query db sql = Ok rows ->
  try_catch (PoolQuery sql (fun rows => Return (f rows))) h db
  = ([CQuery sql], mkResponse 200 (f rows)).
Proof. unfold try_catch. cbn [run]. now intros ->. Qed.

(** What was thrown inside the try block of a route, if anything: by the
    pool, or by the grouping of [/api/menu]. *)
Lemma handler_500 (r : route) (db : pool) :
  code (snd (handler r db)) = 500%Z ->
  exists e,
    payload (snd (handler r db))
    = match r with
      | ApiDbHealth => StatusMessage "ERROR" (message e)
      | _ => ErrorMessage (message e)
      end
    /\ (getConnection db = Throw e
        \/ ping db = Throw e
        \/ (exists sql, sql_of r = Some sql /\ query db sql = Throw e)
        \/ (r = ApiMenu
            /\ exists rows, query db menu_sql = Ok rows
                            /\ Menu.categories rows = Throw e)).
Proof.
  destruct r; cbn [handler sql_of]; unfold health, db_health, pass_through,
    faqs, menu, try_catch; cbn [run].
  - discriminate.
  - destruct (getConnection db) as [u|e] eqn:G.
    + destruct (ping db) as [u'|e] eqn:P; cbn; [discriminate|].
      intros _. exists e. auto.
    + cbn. intros _. exists e. auto.
  - destruct (query db users_sql) as [rows|e] eqn:Q; cbn; [discriminate|].
    intros _. exists e. split; [reflexivity|]. right. right. left. eauto.
  - destruct (query db images_sql) as [rows|e] eqn:Q; cbn; [discriminate|].
    intros _. exists e. split; [reflexivity|]. right. right. left. eauto.
  - destruct (query db faqs_sql) as [rows|e] eqn:Q; cbn; [discriminate|].
    intros _. exists e. split; [reflexivity|]. right. right. left. eauto.
  - destruct (query db menu_sql) as [rows|e] eqn:Q.
    + destruct (Menu.categories rows) as [cats|e] eqn:C; cbn;
        [discriminate|].
      intros _. exists e. split; [reflexivity|]. right. right. right. eauto.
    + cbn. intros _. exists e. split; [reflexivity|]. right. right. left.
      eauto.
  - destruct (query db reviews_sql) as [rows|e] eqn:Q; cbn; [discriminate|].
    intros _. exists e. split; [reflexivity|]. right. right. left. eauto.
  - destruct (query db menu_categories_sql) as [rows|e] eqn:Q; cbn;
      [discriminate|].
    intros _. exists e. split; [reflexivity|]. right. right. left. eauto.
Qed.

(** X17.  On every route, an error thrown by the query (for
    [/api/db-health], by [getConnection] or by [ping]) gives status 500 and
    a body that holds the error's message as it is: [{ error }] on the data
    routes, [{ status: 'ERROR', message }] on [/api/db-health].  When
    nothing is thrown in the try block, by the pool or, on [/api/menu], by
    the grouping, the status is 200; and a status 500 always carries the
    message of an error that was thrown there. *)
Theorem routes_error_500 (r : route) (db : pool) :
  (forall sql e,
      sql_of r = Some sql -> query db sql = Throw e ->
      handler r db = ([CQuery sql], mkResponse 500 (ErrorMessage (message e))))
  /\ (forall e,
        r = ApiDbHealth -> getConnection db = Throw e ->
        handler r db
        = ([CGetConnection],
           mkResponse 500 (StatusMessage "ERROR" (message e))))
  /\ (forall e,
        r = ApiDbHealth -> getConnection db = Ok tt -> ping db = Throw e ->
        handler r db
        = ([CGetConnection; CPing],
           mkResponse 500 (StatusMessage "ERROR" (message e))))
  /\ (r = ApiDbHealth -> getConnection db = Ok tt -> ping db = Ok tt ->
      handler r db
      = ([CGetConnection; CPing; CRelease],
         mkResponse 200
           (StatusMessage "OK" "Database connection is successful")))
  /\ (forall sql rows,
        sql_of r = Some sql -> query db sql = Ok rows ->
        (r = ApiMenu -> exists cats, Menu.categories rows = Ok cats) ->
        code (snd (handler r db)) = 200%Z)
  /\ (r = ApiHealth -> code (snd (handler r db)) = 200%Z)
  /\ (code (snd (handler r db)) = 500%Z ->
      exists e,
        payload (snd (handler r db))
        = match r with
          | ApiDbHealth => StatusMessage "ERROR" (message e)
          | _ => ErrorMessage (message e)
          end
        /\ (getConnection db = Throw e
            \/ ping db = Throw e
            \/ (exists sql, sql_of r = Some sql /\ query db sql = Throw e)
            \/ (r = ApiMenu
                /\ exists rows, query db menu_sql = Ok rows
                                /\ Menu.categories rows = Throw e))).
Proof.
  split; [|split; [|split; [|split; [|split; [|split]]]]].
  - intros sql e S Q.
    destruct r; cbn [sql_of] in S; try discriminate; injection S as <-;
      cbn [handler]; unfold pass_through, faqs, menu;
      now apply (try_catch_query_throw _ _ send_error).
  - intros e -> G. cbn [handler]. unfold db_health, try_catch. cbn [run].
    now rewrite G.
  - intros e -> G P. cbn [handler]. unfold db_health, try_catch. cbn [run].
    now rewrite G, P.
  - intros -> G P. cbn [handler]. unfold db_health, try_catch. cbn [run].
    now rewrite G, P.
  - intros sql rows S Q M.
    destruct r; cbn [sql_of] in S; try discriminate; injection S as <-;
      cbn [handler]; unfold pass_through, faqs, menu;
      try (now rewrite (try_catch_query_return _ _ _ _ rows Q)).
    destruct (M eq_refl) as (cats & C).
    unfold try_catch. cbn [run]. now rewrite Q, C.
  - now intros ->.
  - apply handler_500.
Qed.

Lemma routes_error_500_witness :
  handler ApiUsers (Samples.pool_down (DbError "connect ECONNREFUSED"))
  = ([CQuery users_sql],
     mkResponse 500 (ErrorMessage "connect ECONNREFUSED"))
  /\ handler ApiDbHealth (Samples.pool_down (DbError "connect ECONNREFUSED"))
     = ([CGetConnection],
        mkResponse 500 (StatusMessage "ERROR" "connect ECONNREFUSED"))
  /\ code (snd (handler ApiMenu (Samples.pool_with [Samples.soup]))) = 200%Z.
Proof.
  split; [|split].
  - apply (proj1 (routes_error_500 ApiUsers _) users_sql
             (DbError "connect ECONNREFUSED")); reflexivity.
  - apply (proj1 (proj2 (routes_error_500 ApiDbHealth _))
             (DbError "connect ECONNREFUSED")); reflexivity.
  - apply (proj1 (proj2 (proj2 (proj2 (proj2
             (routes_error_500 ApiMenu (Samples.pool_with [Samples.soup]))))))
             menu_sql [Samples.soup]); try reflexivity.
    intros _. eexists. reflexivity.
Defined.


(** C10.  [/api/health] is constant: whatever the pool would answer, the
    handler makes no call on it and replies 200 with [{ status: 'OK' }]. *)
Theorem health_constant (db : pool) :
  handler ApiHealth db = ([], mkResponse 200 (Status "OK")).
Proof. reflexivity. Qed.

(** * Further properties *)

(** ** decodeHtml, continued *)

Local Open Scope string_scope.

Lemma length_append (a b : string) :
  String.length (a ++ b) = String.length a + String.length b.
Proof. induction a as [|x a IH]; simpl; [reflexivity | now rewrite IH]. Qed.

Lemma prefix_empty (s : string) : prefix "" s = true.
Proof. now destruct s. Qed.

Lemma prefix_unmentioned (c : ascii) (q s : string) :
  mentions c q = false -> q <> "" -> prefix q (String c s) = false.
Proof.
  destruct q as [|y q]; [congruence|]. cbn [mentions prefix]. intros M _.
  apply orb_false_iff in M as [M _].
  destruct (ascii_dec y c) as [->|]; [|reflexivity].
  now rewrite Ascii.eqb_refl in M.
Qed.

Section ReplaceMore.

Variables pat rep : string.

(** A replacement no longer than its pattern never lengthens the text. *)
Lemma replace_from_length (s : string) (k : nat) :
  String.length rep <= String.length pat ->
  String.length (replace_from pat rep k s) <= String.length s - k.
Proof.
  intros L. revert k. induction s as [|x s IH]; intros k; [simpl; lia|].
  destruct k as [|k]; cbn [replace_from].
  - destruct (prefix pat (String x s)) eqn:P.
    + apply prefix_length in P. cbn [String.length] in P |- *.
      rewrite length_append.
      specialize (IH (String.length pat - 1)). lia.
    + cbn [String.length]. specialize (IH 0). lia.
  - cbn [String.length]. specialize (IH k). lia.
Qed.

(** A non-empty replacement never empties a non-empty text. *)
Lemma replace_g_empty (s : string) :
  rep <> "" -> replace_g pat rep s = "" -> s = "".
Proof.
  intros R. unfold replace_g. destruct s as [|x s]; [reflexivity|].
  cbn [replace_from]. destruct (prefix pat (String x s)); [|discriminate].
  destruct rep; [congruence | discriminate].
Qed.

(** A character the pattern does not mention splits the scan. *)
Lemma replace_g_inert (c : ascii) (a b : string) :
  mentions c pat = false -> pat <> "" ->
  replace_g pat rep (a ++ String c b)
  = replace_g pat rep a ++ String c (replace_g pat rep b).
Proof.
  intros M N.
  apply (replace_g_around pat rep c "" (String c "") ) with (a := a) (b := b).
  - destruct pat as [|y q]; [congruence|]. cbn [mentions tail] in M |- *.
    now apply orb_false_iff in M as [_ M].
  - intros b'. unfold replace_g. cbn [append replace_from].
    now rewrite prefix_unmentioned.
Qed.

End ReplaceMore.

Section ReplaceOneChar.

(** Replacing by a single character [c]. *)
Variables (pat : string) (c : ascii).

Lemma prefix_replace_from (q s : string) :
  mentions c q = false ->
  prefix q (replace_from pat (String c "") 0 s) = true ->
  prefix q s = true.
Proof.
  intros M. revert s M. induction q as [|y q IH]; intros s M H.
  - apply prefix_empty.
  - destruct s as [|x s]; [discriminate H|].
    cbn [replace_from] in H.
    destruct (prefix pat (String x s)).
    + cbn [append] in H. rewrite prefix_unmentioned in H; congruence.
    + cbn [prefix] in H |- *. cbn [mentions] in M.
      apply orb_false_iff in M as [_ M].
      destruct (ascii_dec y x); [now apply IH | discriminate].
Qed.

(** No occurrence of [q] is created, when [q] does not mention [c]. *)
Lemma occursb_replace_from (q s : string) (k : nat) :
  mentions c q = false -> q <> "" ->
  occursb q s = false ->
  occursb q (replace_from pat (String c "") k s) = false.
Proof.
  intros M N. revert k. induction s as [|x s IH]; intros k H.
  - exact H.
  - cbn [occursb] in H. apply orb_false_iff in H as [Hp Hs].
    destruct k as [|k]; cbn [replace_from]; [|now apply IH].
    destruct (prefix pat (String x s)) eqn:P.
    + cbn [append occursb]. rewrite prefix_unmentioned by assumption.
      now apply IH.
    + cbn [occursb]. rewrite (IH 0 Hs), orb_false_r.
      destruct (prefix q (String x (replace_from pat (String c "") 0 s)))
        eqn:Q; [|reflexivity].
      assert (X : prefix q (replace_from pat (String c "") 0 (String x s))
                  = true) by (cbn [replace_from]; now rewrite P).
      apply prefix_replace_from in X; congruence.
Qed.

(** Every occurrence of the pattern is gone, when it does not mention [c]. *)
Lemma occursb_replaced (s : string) (k : nat) :
  mentions c pat = false -> pat <> "" ->
  occursb pat (replace_from pat (String c "") k s) = false.
Proof.
  intros M N. revert k. induction s as [|x s IH]; intros k.
  - cbn [replace_from occursb]. rewrite orb_false_r.
    destruct pat; [congruence | reflexivity].
  - destruct k as [|k]; cbn [replace_from]; [|apply IH].
    destruct (prefix pat (String x s)) eqn:P.
    + cbn [append occursb]. rewrite prefix_unmentioned by assumption.
      apply IH.
    + cbn [occursb]. rewrite (IH 0), orb_false_r.
      destruct (prefix pat (String x (replace_from pat (String c "") 0 s)))
        eqn:Q; [|reflexivity].
      assert (X : prefix pat (replace_from pat (String c "") 0 (String x s))
                  = true) by (cbn [replace_from]; now rewrite P).
      apply prefix_replace_from in X; congruence.
Qed.

End ReplaceOneChar.

Lemma decode_chain_length (s : string) :
  String.length (decode_chain s) <= String.length s.
Proof.
  unfold decode_chain, replace_g.
  repeat match goal with
         | |- String.length (replace_from ?p ?r 0 ?t) <= _ =>
             etransitivity;
             [ etransitivity;
               [ apply (replace_from_length p r t 0); cbn; lia
               | apply Nat.le_sub_l ] | ]
         end.
  reflexivity.
Qed.

Lemma decode_chain_empty (s : string) : decode_chain s = "" -> s = "".
Proof.
  unfold decode_chain. intros H.
  repeat (apply replace_g_empty in H; [|discriminate]).
  exact H.
Qed.

(** X1.  [decodeHtml] never makes a string longer, and it gives the empty
    string only for the empty string. *)
Theorem decodeHtml_shrinks (s : string) :
  exists t,
    decodeHtml (VStr s) = Ok (VStr t)
    /\ String.length t <= String.length s
    /\ String.eqb t "" = String.eqb s "".
Proof.
  exists (decode_chain s). split; [reflexivity|].
  split; [apply decode_chain_length|].
  destruct (String.eqb_spec s "") as [->|N]; [reflexivity|].
  apply String.eqb_neq. intros E. now apply decode_chain_empty in E.
Qed.

(** X2.  A character that occurs in none of the escaped sequences splits
    the text: [decodeHtml] decodes what is before it and what is after it on
    their own and keeps the character between them. *)
Theorem decodeHtml_splits_at_inert (c : ascii) (a b : string) :
  inert c = true ->
  decodeHtml (VStr (a ++ String c b))
  = Ok (VStr (decode_chain a ++ String c (decode_chain b))).
Proof.
  intros H. cbn [inert forallb entities fst] in H.
  repeat (apply andb_true_iff in H as [?H H]).
  repeat match goal with
         | X : negb _ = true |- _ => apply negb_true_iff in X
         end.
  cbn [decodeHtml]. do 2 f_equal.
  cbv beta zeta delta [decode_chain].
  repeat (rewrite (replace_g_inert _ _ c) by (assumption || discriminate)).
  reflexivity.
Qed.

Lemma decodeHtml_splits_at_inert_witness :
  decodeHtml (VStr "Fish &amp; Chips &lt;3") = Ok (VStr "Fish & Chips <3").
Proof.
  exact (decodeHtml_splits_at_inert " "%char "Fish &amp;" "Chips &lt;3"
           eq_refl).
Defined.

(** X3.  [decodeHtml] removes one level of escaping only: an entity whose
    ampersand is itself written [&amp;] comes out as the entity's text, not
    as the character the entity stands for. *)
Theorem decodeHtml_one_level (e lit rest pre post : string) :
  In (e, lit) entities ->
  e = String "&"%char rest ->
  decodeHtml (VStr (pre ++ "&amp;" ++ rest ++ post))
  = Ok (VStr (decode_chain pre ++ e ++ decode_chain post)).
Proof.
  intros H E. cbn [decodeHtml]. do 2 f_equal.
  rewrite (decode_chain_around "&amp;" "&") by (simpl; tauto).
  f_equal.
  repeat (destruct H as [H|H];
          [injection H as <- <-; try discriminate E;
           injection E as <-; reflexivity|]).
  destruct H.
Qed.

Lemma decodeHtml_one_level_witness :
  decodeHtml (VStr "a &amp;lt; b") = Ok (VStr "a &lt; b").
Proof.
  apply (decodeHtml_one_level "&lt;" "<" "lt;" "a " " b").
  - simpl. tauto.
  - reflexivity.
Defined.

(** X4.  What [decodeHtml] returns holds neither of the two backslash-u
    forms of the angle brackets. *)
Theorem decodeHtml_no_escaped_bracket (s : string) :
  exists t,
    decodeHtml (VStr s) = Ok (VStr t)
    /\ occursb esc_lt t = false
    /\ occursb esc_gt t = false.
Proof.
  exists (decode_chain s). split; [reflexivity|].
  unfold decode_chain, replace_g. split.
  - apply occursb_replace_from; try reflexivity; try discriminate.
    apply occursb_replaced; [reflexivity | discriminate].
  - apply occursb_replaced; [reflexivity | discriminate].
Qed.

(** X5.  When the item built from a menu row has a [badge] key, the row's
    badge is a string and the item's badge is a non-empty string, no longer
    than the row's. *)
Theorem menu_badge_present (r : row) (i : Menu.item) (v : value) :
  Menu.make_item r = Ok i ->
  Menu.badge i = Some v ->
  exists s t,
    get r "badge" = VStr s /\ v = VStr t
    /\ t <> "" /\ String.length t <= String.length s.
Proof.
  intros H B. apply make_item_ok in H.
  destruct H as (_ & _ & _ & _ & _ & _ & H).
  destruct (truthy (get r "badge")) eqn:T; [|congruence].
  destruct H as (s & G & H). rewrite B in H. injection H as ->.
  exists s, (decode_chain s). repeat split; try assumption.
  - intros E. apply decode_chain_empty in E. subst s.
    rewrite G in T. discriminate T.
  - apply decode_chain_length.
Qed.

Lemma menu_badge_present_witness :
  exists s t,
    get Samples.soup "badge" = VStr s /\ VStr "Chef's pick" = VStr t
    /\ t <> "" /\ String.length t <= String.length s.
Proof.
  exact (menu_badge_present Samples.soup _ (VStr "Chef's pick")
           eq_refl eq_refl).
Defined.

(** ** Groups of a list *)

Local Open Scope list_scope.

Section Groups.

Context {A K : Type} (key : A -> K) (eqb : K -> K -> bool).
Hypothesis eqb_eq : forall a b, eqb a b = true <-> a = b.

Lemma filter_absent (a : K) (ks : list K) :
  ~ In a ks -> filter (fun k => eqb a k) ks = [].
Proof.
  induction ks as [|k ks IH]; [reflexivity|]. intros N. cbn [filter].
  destruct (eqb a k) eqn:E.
  - apply eqb_eq in E. subst k. exfalso. apply N. now left.
  - apply IH. intros H. apply N. now right.
Qed.

Lemma filter_once (a : K) (ks : list K) :
  NoDup ks -> In a ks -> List.length (filter (fun k => eqb a k) ks) = 1.
Proof.
  induction 1 as [|k ks Hk ND IH]; intros Hin; [destruct Hin|].
  cbn [filter]. destruct (eqb a k) eqn:E.
  - apply eqb_eq in E. subst k. now rewrite filter_absent.
  - apply IH. destruct Hin as [->|Hin]; [|assumption].
    now rewrite (eqb_same _ eqb_eq) in E.
Qed.

(** Splitting a list by key and putting the groups side by side keeps every
    element, once. *)
Lemma groups_length (l : list A) (ks : list K) :
  NoDup ks ->
  (forall x, In x l -> In (key x) ks) ->
  List.length (flat_map (fun k => filter (fun x => eqb (key x) k) l) ks)
  = List.length l.
Proof.
  intros ND. induction l as [|x l IH]; intros Hin.
  - cbn [filter]. clear. induction ks as [|k ks IH]; [reflexivity | exact IH].
  - assert (E : List.length
                  (flat_map (fun k => filter (fun y => eqb (key y) k) (x :: l))
                     ks)
                = List.length (filter (fun k => eqb (key x) k) ks)
                  + List.length
                      (flat_map (fun k => filter (fun y => eqb (key y) k) l)
                         ks)).
    { clear. induction ks as [|k ks IHk]; [reflexivity|].
      cbn [flat_map]. rewrite !length_app, IHk. cbn [filter].
      destruct (eqb (key x) k); cbn [List.length]; lia. }
    rewrite E, (filter_once (key x) ks ND) by (apply Hin; now left).
    rewrite IH by (intros y Hy; apply Hin; now right). reflexivity.
Qed.

End Groups.

Lemma flat_map_length_ext {A B C} (f : A -> list B) (g : A -> list C)
  (l : list A) :
  (forall a, In a l -> List.length (f a) = List.length (g a)) ->
  List.length (flat_map f l) = List.length (flat_map g l).
Proof.
  induction l as [|a l IH]; intros H; [reflexivity|].
  cbn [flat_map]. rewrite !length_app, H by now left.
  rewrite IH; [reflexivity|]. intros b Hb. apply H. now right.
Qed.

Lemma filter_comm {A} (p q : A -> bool) (l : list A) :
  filter p (filter q l) = filter q (filter p l).
Proof.
  induction l as [|a l IH]; [reflexivity|]. cbn [filter].
  destruct (p a) eqn:P, (q a) eqn:Q; cbn [filter]; rewrite ?P, ?Q, IH;
    reflexivity.
Qed.

(** ** The menu grouping, continued *)

Lemma reduce_app {A} (f : A -> row -> result A) (a b : list row) (acc : A) :
  reduce f (a ++ b) acc = let* x := reduce f a acc in reduce f b x.
Proof.
  revert acc. induction a as [|r a IH]; intros acc; [reflexivity|].
  cbn [app reduce]. destruct (f acc r); cbn [bind]; [apply IH | reflexivity].
Qed.

Lemma step_grouped_throw_which (rows : list row) (r : row) :
  Menu.shapeable r = false ->
  exists e,
    Menu.step (Menu.grouped rows) r = Throw e
    /\ if inherited (Menu.key_of r)
       then e = TypeError "Cannot read properties of undefined (reading 'push')"
       else Menu.make_item r = Throw e.
Proof.
  unfold Menu.shapeable. intros Sh.
  destruct (truthy (get r "id")) eqn:T; [|discriminate].
  unfold Menu.step. fold (Menu.key_of r). rewrite has_truthy_grouped, T.
  destruct (inherited (Menu.key_of r)) eqn:Inh.
  - assert (Ex : existsb (String.eqb (Menu.key_of r)) (Menu.category_keys rows)
                 = false).
    { destruct (existsb _ _) eqn:E; [|reflexivity].
      apply (existsb_eqb _ String.eqb_eq), category_keys_In in E.
      destruct E; congruence. }
    rewrite Ex. cbn [orb negb]. unfold Menu.grouped.
    rewrite get_own_object_of, Ex. eexists. split; reflexivity.
  - cbn [negb andb] in Sh.
    pose proof (make_item_total r) as M. rewrite Sh in M.
    destruct M as (e & He). exists e. split; [|exact He].
    destruct (existsb (String.eqb (Menu.key_of r)) (Menu.category_keys rows))
      eqn:Ex; cbn [orb negb].
    + unfold Menu.grouped. now rewrite get_own_object_of, Ex, He.
    + rewrite get_own_app. unfold Menu.grouped.
      rewrite get_own_object_of, Ex. cbn [Menu.get_own].
      now rewrite String.eqb_refl, He.
Qed.

(** X6.  The menu grouping throws exactly when some row cannot be shaped:
    a row with a truthy [id] whose price is [null] or [undefined], whose
    badge is truthy and not a string, or whose key reads as an inherited
    property.  Rows with a falsy [id] never make it throw. *)
Theorem menu_throws_iff (rows : list row) :
  is_throw (Menu.categories rows) = negb (forallb Menu.shapeable rows)
  /\ (forallb (fun r => negb (truthy (get r "id"))) rows = true ->
      is_throw (Menu.categories rows) = false).
Proof.
  pose proof (categories_spec rows) as S.
  assert (E : is_throw (Menu.categories rows)
              = negb (forallb Menu.shapeable rows)).
  { destruct (forallb Menu.shapeable rows).
    - now rewrite S.
    - destruct S as (e & ->). reflexivity. }
  split; [exact E|]. intros F. rewrite E. apply negb_false_iff.
  rewrite forallb_forall in F |- *. intros r Hr. apply F in Hr.
  unfold Menu.shapeable. now destruct (truthy (get r "id")).
Qed.

Lemma menu_throws_iff_witness :
  is_throw (Menu.categories [Samples.empty_category; Samples.first_item])
  = false.
Proof.
  apply (proj2 (menu_throws_iff
                  [Samples.empty_category; Samples.first_item])).
  reflexivity.
Defined.

(** X7.  The first row that cannot be shaped decides the failure: the
    grouping throws the TypeError of that row, the one of reading [push] on
    [undefined] when its key reads as an inherited property and the one of
    building its item otherwise, whatever rows follow it. *)
Theorem menu_first_failure (good : list row) (bad : row) (rest : list row) :
  forallb Menu.shapeable good = true ->
  Menu.shapeable bad = false ->
  exists e,
    Menu.categories (good ++ bad :: rest) = Throw e
    /\ Menu.categories (good ++ [bad]) = Throw e
    /\ if inherited (Menu.key_of bad)
       then e = TypeError "Cannot read properties of undefined (reading 'push')"
       else Menu.make_item bad = Throw e.
Proof.
  intros G B.
  destruct (step_grouped_throw_which good bad B) as (e & St & W).
  exists e. pose proof (reduce_step_grouped good) as R. rewrite G in R.
  unfold Menu.categories. rewrite !reduce_app, R. cbn [bind reduce].
  rewrite St. cbn [bind]. now repeat split.
Qed.

Lemma menu_first_failure_witness :
  exists e,
    Menu.categories ([Samples.soup] ++ Samples.unpriced :: [Samples.fish])
    = Throw e
    /\ Menu.categories ([Samples.soup] ++ [Samples.unpriced]) = Throw e
    /\ Menu.make_item Samples.unpriced = Throw e.
Proof.
  exact (menu_first_failure [Samples.soup] Samples.unpriced [Samples.fish]
           eq_refl eq_refl).
Defined.

(** X8.  The grouping neither loses nor repeats an item: when it returns,
    the items of all categories together are as many as the rows with a
    truthy [id]. *)
Theorem menu_items_conserved (rows : list row) (cats : list Menu.category) :
  Menu.categories rows = Ok cats ->
  List.length (flat_map Menu.items cats)
  = List.length (filter (fun r => truthy (get r "id")) rows).
Proof.
  intros H. apply categories_ok in H as [Sh ->].
  rewrite (Permutation_length
             (Permutation_flat_map Menu.items
                (Permutation_map (Menu.category_of rows)
                   (own_property_keys_perm (Menu.category_keys rows))))).
  rewrite flat_map_concat_map, map_map, <- flat_map_concat_map.
  rewrite (flat_map_length_ext _
             (fun k => filter (fun r => String.eqb (Menu.key_of r) k)
                         (filter (fun r => truthy (get r "id")) rows))).
  - apply (groups_length Menu.key_of String.eqb String.eqb_eq).
    + apply category_keys_NoDup.
    + intros r Hr. apply filter_In in Hr as [Hr T].
      apply category_keys_In. split; [now apply in_map|].
      rewrite forallb_forall in Sh.
      now destruct (shapeable_item r (Sh r Hr) T).
  - intros k _. rewrite filter_comm.
    rewrite <- (length_map Ok), <- (length_map Menu.make_item).
    f_equal. apply items_of_shapeable. now apply forallb_filter.
Qed.

Lemma menu_items_conserved_witness :
  let rows := [Samples.soup; Samples.fish; Samples.unrated;
               Samples.empty_category; Samples.first_item] in
  exists cats,
    Menu.categories rows = Ok cats
    /\ List.length (flat_map Menu.items cats) = 3.
Proof.
  intros rows. eexists. split; [reflexivity|].
  exact (menu_items_conserved rows _ eq_refl).
Defined.

Lemma sorted_perm_eq (l l' : list N) :
  StronglySorted N.le l -> StronglySorted N.le l' -> Permutation l l' ->
  l = l'.
Proof.
  intros S. revert l'. induction S as [|a l S IH F]; intros l' S' P.
  - now apply Permutation_nil in P.
  - destruct S' as [|b l' S' F'].
    + symmetry in P. now apply Permutation_nil in P.
    + assert (Hab : a = b).
      { apply N.le_antisymm.
        - assert (X : In b (a :: l))
            by (eapply Permutation_in; [symmetry; exact P | now left]).
          destruct X as [->|X]; [reflexivity|].
          rewrite Forall_forall in F. now apply F.
        - assert (X : In a (b :: l'))
            by (eapply Permutation_in; [exact P | now left]).
          destruct X as [->|X]; [reflexivity|].
          rewrite Forall_forall in F'. now apply F'. }
      subst b. f_equal. apply IH; [assumption|].
      now apply Permutation_cons_inv in P.
Qed.

Lemma indices_of_perm (ks ks' : list string) :
  Permutation ks ks' -> Permutation (indices_of ks) (indices_of ks').
Proof.
  induction 1 as [|k ks ks' P IH|k k' ks|ks ks' ks'' P IH P' IH'].
  - constructor.
  - cbn [indices_of]. destruct (array_index k); [now constructor | exact IH].
  - cbn [indices_of]. destruct (array_index k), (array_index k');
      try reflexivity. apply perm_swap.
  - now transitivity (indices_of ks').
Qed.

Lemma own_property_keys_indexed (ks ks' : list string) :
  forallb is_array_index ks = true ->
  Permutation ks ks' ->
  own_property_keys ks = own_property_keys ks'.
Proof.
  intros I P. unfold own_property_keys.
  assert (I' : forallb is_array_index ks' = true).
  { rewrite forallb_forall in I |- *. intros k Hk. apply I.
    eapply Permutation_in; [symmetry; exact P | exact Hk]. }
  assert (E : forall l, forallb is_array_index l = true ->
                        filter (fun k => negb (is_array_index k)) l = []).
  { clear. induction l as [|k l IH]; [reflexivity|]. cbn [forallb filter].
    intros H. apply andb_true_iff in H as [-> H]. now apply IH. }
  rewrite (E _ I), (E _ I'). f_equal. f_equal.
  apply sorted_perm_eq; try apply sort_asc_sorted.
  rewrite !sort_asc_perm. now apply indices_of_perm.
Qed.

Lemma key_occurs_iff (k : string) (rows : list row) :
  In k (map Menu.key_of rows) <-> Menu.rows_of k rows <> [].
Proof.
  split; [apply menu_rows_of_some|]. intros N.
  destruct (in_dec string_dec k (map Menu.key_of rows)) as [H|H];
    [exact H|]. now apply menu_rows_of_none in H.
Qed.

(** X9.  With array-index ids the response does not depend on how the rows
    of different categories are interleaved: two row sequences that give
    every key the same rows in the same order are grouped alike. *)
Theorem menu_interleaving (rows rows' : list row)
  (cats : list Menu.category) :
  all_indexed rows = true ->
  (forall k,
      filter (fun r => String.eqb (ToString (get r "category_id")) k) rows
      = filter (fun r => String.eqb (ToString (get r "category_id")) k) rows') ->
  Menu.categories rows = Ok cats ->
  Menu.categories rows' = Ok cats.
Proof.
  intros I Same H. apply categories_ok in H as [Sh ->].
  change (forall k, Menu.rows_of k rows = Menu.rows_of k rows') in Same.
  assert (Sub : forall r, In r rows' -> In r rows).
  { intros r Hr.
    assert (X : In r (Menu.rows_of (Menu.key_of r) rows'))
      by (apply filter_In; split; [exact Hr | apply String.eqb_refl]).
    rewrite <- Same in X. now apply filter_In in X as [X _]. }
  assert (Sh' : forallb Menu.shapeable rows' = true).
  { rewrite forallb_forall in Sh |- *. intros r Hr. now apply Sh, Sub. }
  pose proof (categories_spec rows') as S. rewrite Sh' in S. rewrite S.
  f_equal.
  assert (P : Permutation (Menu.category_keys rows) (Menu.category_keys rows')).
  { apply NoDup_Permutation; try apply category_keys_NoDup.
    intros k. rewrite !category_keys_In, !key_occurs_iff, Same. reflexivity. }
  rewrite <- (own_property_keys_indexed (Menu.category_keys rows)).
  - apply map_ext. intros k. unfold Menu.category_of. now rewrite Same.
  - apply forallb_forall. intros k Hk.
    apply category_keys_In in Hk as [Hk _].
    apply in_map_iff in Hk as (r & <- & Hr).
    unfold all_indexed in I. rewrite forallb_forall in I. now apply I.
  - exact P.
Qed.

Lemma menu_interleaving_witness :
  exists cats,
    Menu.categories [Samples.soup; Samples.fish; Samples.unrated] = Ok cats
    /\ Menu.categories [Samples.fish; Samples.soup; Samples.unrated] = Ok cats.
Proof.
  eexists. split; [reflexivity|].
  apply (menu_interleaving [Samples.soup; Samples.fish; Samples.unrated]);
    try reflexivity.
  intros k. cbn [filter].
  change (ToString (get Samples.soup "category_id")) with "1".
  change (ToString (get Samples.fish "category_id")) with "2".
  change (ToString (get Samples.unrated "category_id")) with "2".
  destruct (String.eqb_spec "1" k) as [<-|_]; [reflexivity|].
  destruct (String.eqb "2" k); reflexivity.
Defined.

(** ** The FAQ grouping, continued *)

Lemma faq_rows_of_some (n : value) (rows : list row) :
  In n (map Faq.name_of rows) -> Faq.rows_of n rows <> [].
Proof.
  intros H E. apply in_map_iff in H as (r & Hn & Hr).
  assert (X : In r (Faq.rows_of n rows)).
  { apply filter_In. split; [assumption|]. now apply strict_eq_eq. }
  rewrite E in X. destruct X.
Qed.

Lemma filter_none {A} (p : A -> bool) (l : list A) :
  (forall x, In x l -> p x = false) -> filter p l = [].
Proof.
  induction l as [|a l IH]; intros H; [reflexivity|].
  cbn [filter]. rewrite (H a) by now left.
  apply IH. intros x Hx. apply H. now right.
Qed.

Lemma filter_all {A} (p : A -> bool) (l : list A) :
  forallb p l = true -> filter p l = l.
Proof.
  induction l as [|a l IH]; [reflexivity|]. cbn [forallb filter].
  intros H. apply andb_true_iff in H as [-> H]. now rewrite IH.
Qed.

(** X10.  The FAQ grouping keeps every row as one item and makes no empty
    category: the items of all categories together are as many as the rows,
    and no category has an empty items list. *)
Theorem faq_items_conserved (rows : list row) :
  List.length (flat_map Faq.items (Faq.categories rows)) = List.length rows
  /\ existsb (fun c => match Faq.items c with [] => true | _ => false end)
       (Faq.categories rows) = false.
Proof.
  rewrite faq_categories_spec. split.
  - rewrite flat_map_concat_map, map_map, <- flat_map_concat_map.
    rewrite (flat_map_length_ext _
               (fun n => filter (fun r => strict_eq (Faq.name_of r) n) rows)).
    + apply (groups_length Faq.name_of strict_eq strict_eq_eq).
      * apply (first_occurrences_NoDup _ strict_eq_eq).
      * intros r Hr. apply (first_occurrences_In _ strict_eq_eq).
        now apply in_map.
    + intros n _. cbn [Faq.category_of Faq.items]. apply length_map.
  - destruct (existsb _ _) eqn:E; [|reflexivity].
    apply existsb_exists in E as (c & Hc & He).
    apply in_map_iff in Hc as (n & <- & Hn).
    apply -> (first_occurrences_In _ strict_eq_eq) in Hn.
    apply faq_rows_of_some in Hn. cbn [Faq.category_of Faq.items] in He.
    destruct (Faq.rows_of n rows); [contradiction | discriminate].
Qed.

Lemma faq_step_view (acc : list Faq.category) (r r' : row) :
  faq_view r = faq_view r' -> Faq.step acc r = Faq.step acc r'.
Proof.
  unfold faq_view, Faq.step. intros [= -> -> ->]. reflexivity.
Qed.

(** X11.  The FAQ grouping reads three columns of a row, [category_name],
    [title] and [text]: rows that agree on them, whatever their [id] and
    [category_id], are grouped alike. *)
Theorem faq_reads_three_columns (rows rows' : list row) :
  map faq_view rows = map faq_view rows' ->
  Faq.categories rows = Faq.categories rows'.
Proof.
  unfold Faq.categories. generalize (@nil Faq.category).
  revert rows'. induction rows as [|r rows IH]; intros [|r' rows'] acc H;
    try discriminate; [reflexivity|].
  cbn [map] in H.
  assert (Hr : faq_view r = faq_view r') by congruence.
  assert (Ht : map faq_view rows = map faq_view rows') by congruence.
  cbn [fold_left]. rewrite (faq_step_view acc r r' Hr). now apply IH.
Qed.

Lemma faq_reads_three_columns_witness :
  Faq.categories
    [ [ ("id", VNum 1); ("title", VStr "Q"); ("text", VStr "A");
        ("category_id", VNum 1); ("category_name", VStr "General") ] ]
  = Faq.categories
      [ [ ("id", VNum 7); ("title", VStr "Q"); ("text", VStr "A");
          ("category_id", VNum 2); ("category_name", VStr "General") ] ].
Proof. apply faq_reads_three_columns. reflexivity. Defined.

(** X12.  FAQ rows that carry one [category_name] end in one category, even
    when their [category_id] differ: the output is that single entry, with
    one item per row in row order. *)
Theorem faq_same_name_merged (n : value) (rows : list row) :
  rows <> [] ->
  forallb (fun r => strict_eq (get r "category_name") n) rows = true ->
  Faq.categories rows
  = [ Faq.mkCategory n
        (map (fun r => Faq.mkItem (get r "title") (get r "text")) rows) ].
Proof.
  intros N F. rewrite faq_categories_spec.
  assert (All : forall m, In m (map Faq.name_of rows) -> m = n).
  { intros m Hm. apply in_map_iff in Hm as (r & <- & Hr).
    rewrite forallb_forall in F. now apply strict_eq_eq, F. }
  assert (Names : Faq.category_names rows = [n]).
  { unfold Faq.category_names.
    destruct rows as [|r rows]; [congruence|]. cbn [map first_occurrences].
    rewrite (All (Faq.name_of r)) by now left. f_equal.
    apply filter_none. intros m Hm.
    apply -> (first_occurrences_In _ strict_eq_eq) in Hm.
    rewrite (All m) by now right.
    now rewrite (eqb_same _ strict_eq_eq). }
  rewrite Names. cbn [map]. unfold Faq.category_of, Faq.rows_of, Faq.name_of.
  now rewrite (filter_all _ rows F).
Qed.

Lemma faq_same_name_merged_witness :
  List.length
    (Faq.categories
       [ [ ("id", VNum 1); ("title", VStr "Q1"); ("text", VStr "A1");
           ("category_id", VNum 1); ("category_name", VStr "General") ];
         [ ("id", VNum 2); ("title", VStr "Q2"); ("text", VStr "A2");
           ("category_id", VNum 2); ("category_name", VStr "General") ] ])
  = 1.
Proof.
  rewrite (faq_same_name_merged (VStr "General"));
    [reflexivity | discriminate | reflexivity].
Defined.

(** ** Routes, continued *)

(** X13.  Every route that queries data makes exactly one call on the pool,
    its query, whether the query or the grouping then fails or not; it never
    takes a connection of its own. *)
Theorem data_routes_one_query (r : route) (sql : string) (db : pool) :
  sql_of r = Some sql ->
  fst (handler r db) = [CQuery sql].
Proof.
  intros S.
  destruct r; cbn [sql_of] in S; try discriminate; injection S as <-;
    cbn [handler]; unfold pass_through, faqs, menu, try_catch; cbn [run];
    destruct (query db _) as [rows|e]; try reflexivity.
  now destruct (Menu.categories rows).
Qed.

Lemma data_routes_one_query_witness :
  fst (handler ApiMenu (Samples.pool_with [Samples.unpriced]))
  = [CQuery menu_sql].
Proof. exact (data_routes_one_query ApiMenu menu_sql _ eq_refl). Defined.

(** X14.  The status of every route is 200 or 500, and it is 500 exactly
    when something is thrown in its try block: by the pool, or, on
    [/api/menu] alone, by the grouping on a row it cannot shape. *)
Theorem status_exact (r : route) (db : pool) :
  code (snd (handler r db)) = if throws r db then 500%Z else 200%Z.
Proof.
  destruct r; cbn [handler throws sql_of];
    unfold health, db_health, pass_through, faqs, menu, try_catch;
    cbn [run]; try reflexivity;
    try (destruct (query db _) as [rows|e]; reflexivity).
  - destruct (getConnection db) as [u|e]; [|reflexivity].
    destruct (ping db) as [u'|e]; reflexivity.
  - destruct (query db menu_sql) as [rows|e]; [|reflexivity].
    pose proof (categories_spec rows) as S.
    destruct (forallb Menu.shapeable rows).
    + now rewrite S.
    + destruct S as (e & ->). reflexivity.
Qed.

(** X15.  [/api/db-health] releases the connection exactly when nothing was
    thrown: when [getConnection] succeeds and [ping] throws, the connection
    taken is not given back. *)
Theorem db_health_release (db : pool) :
  existsb is_release (fst (handler ApiDbHealth db))
  = negb (throws ApiDbHealth db)
  /\ (is_throw (getConnection db) = false ->
      is_throw (ping db) = true ->
      fst (handler ApiDbHealth db) = [CGetConnection; CPing]).
Proof.
  cbn [handler throws]. unfold db_health, try_catch. cbn [run].
  destruct (getConnection db) as [u|e]; [|split; [reflexivity | discriminate]].
  destruct (ping db) as [u'|e]; split; try reflexivity; discriminate.
Qed.

Lemma db_health_release_witness :
  fst (handler ApiDbHealth
         (mkPool (fun _ => Ok []) (Ok tt) (Throw (DbError "PROTOCOL_CONNECTION_LOST"))))
  = [CGetConnection; CPing].
Proof.
  apply (proj2 (db_health_release
                  (mkPool (fun _ => Ok []) (Ok tt)
                     (Throw (DbError "PROTOCOL_CONNECTION_LOST")))));
    reflexivity.
Defined.

(** X16.  The routes that serve rows ungrouped, in this deployment and in
    the two earlier ones, hand back what the query delivered: the same
    rows, in the same order, with status 200; and the error's message with
    status 500 when the query throws. *)
Theorem flat_routes (db : pool) (sql : string)
  (h : pool -> list call * response) :
  In (sql, h)
     [ (users_sql, handler ApiUsers); (images_sql, handler ApiImages);
       (reviews_sql, handler ApiReviews);
       (menu_categories_sql, handler ApiMenuCategories);
       (Variants.faqs_flat_sql, Variants.faqs_flat);
       (Variants.menu_items_sql, Variants.menu_items) ] ->
  h db
  = ([CQuery sql],
     match query db sql with
     | Ok rows => mkResponse 200 (Rows rows)
     | Throw e => mkResponse 500 (ErrorMessage (message e))
     end).
Proof.
  intros H.
  repeat (destruct H as [H|H];
          [injection H as <- <-;
           cbn [handler];
           unfold Variants.faqs_flat, Variants.menu_items, pass_through,
             try_catch; cbn [run];
           destruct (query db _); reflexivity|]).
  destruct H.
Qed.

Lemma flat_routes_witness :
  Variants.menu_items (Samples.pool_with [Samples.unpriced])
  = ([CQuery Variants.menu_items_sql],
     mkResponse 200 (Rows [Samples.unpriced])).
Proof.
  apply (flat_routes (Samples.pool_with [Samples.unpriced])
           Variants.menu_items_sql Variants.menu_items).
  simpl. tauto.
Defined.
